(** * A shallow embedding of [task_manager.py]

    The program keeps a list of task dictionaries in memory, reads the
    user's answers with [input], reports with [print] and rewrites
    [tasks.json] after every change.  The embedding follows the source
    function by function:

    - a task is a record with the five keys every task dictionary has
      and the optional key ['priority'];
    - Python strings are [string]s, compared byte by byte (which, for
      UTF-8 text, is Python's code-point order); Python integers are [Z];
    - the console and the file are an explicit [world] threaded through
      a small error monad; an exhausted standard input raises
      [EOFError] as [input] does;
    - library functions the source only calls ([datetime.strptime],
      [json.load], [json.dump], [str.lower]) are parameters of the
      sections that use them. *)

From Stdlib Require Import ZArith String Ascii List Lia.
From Stdlib Require Import DecimalString DecimalZ.
From stdpp Require Import base option list gmap strings sorting.

Local Open Scope string_scope.
Local Open Scope list_scope.
Local Open Scope Z_scope.

(** ** Strings *)

(** Python's [str(n)] on an integer: its decimal digits, with a leading
    minus sign for negative numbers. *)
Definition str (n : Z) : string := NilZero.string_of_int (Z.to_int n).

(** A line feed, for the literals written ['\n...'] in the source. *)
Definition LF : string := String "010" "".

(** ** Case mapping and substring search *)

(** Lower and upper case of one character, for [capitalize]: the ASCII
    letters are mapped, every other byte is left as it is. *)
Definition lower_char (c : ascii) : ascii :=
  let n := N_of_ascii c in
  if (65 <=? n)%N && (n <=? 90)%N then ascii_of_N (n + 32) else c.

Definition upper_char (c : ascii) : ascii :=
  let n := N_of_ascii c in
  if (97 <=? n)%N && (n <=? 122)%N then ascii_of_N (n - 32) else c.

Fixpoint lower_ascii (s : string) : string :=
  match s with
  | EmptyString => EmptyString
  | String c s' => String (lower_char c) (lower_ascii s')
  end.

(** [str.capitalize]: first character upper case, the rest lower case.
    The program only tests whether the result is one of the five ASCII
    words of [PRIORITY_LEVELS] and [STATUS_OPTIONS], and stores it only
    then; the model acts on ASCII letters alone. *)
Definition capitalize (s : string) : string :=
  match s with
  | EmptyString => EmptyString
  | String c s' => String (upper_char c) (lower_ascii s')
  end.

(** [sub in s] on strings. *)
Fixpoint contains (sub s : string) : bool :=
  String.prefix sub s ||
  match s with
  | EmptyString => false
  | String _ s' => contains sub s'
  end.

(** ** Data model *)

Record task := Task {
  task_id : string;
  title : string;
  description : string;
  due_date : string;
  status : string;
  priority : option string
}.

Global Instance task_eq_dec : EqDecision task.
Proof. solve_decision. Defined.

Definition DATE_FORMAT : string := "%Y-%m-%d".
Definition PRIORITY_LEVELS : list string := ["Low"; "Medium"; "High"].
Definition STATUS_OPTIONS : list string := ["Pending"; "Completed"].

(** [task.get('priority', 'Medium')] *)
Definition get_priority (t : task) : string := default "Medium" (priority t).

(** [task[key] = value] for the keys the program assigns. *)
Definition set_description (v : string) (t : task) : task :=
  Task (task_id t) (title t) v (due_date t) (status t) (priority t).
Definition set_due_date (v : string) (t : task) : task :=
  Task (task_id t) (title t) (description t) v (status t) (priority t).
Definition set_status (v : string) (t : task) : task :=
  Task (task_id t) (title t) (description t) (due_date t) v (priority t).
Definition set_priority (v : string) (t : task) : task :=
  Task (task_id t) (title t) (description t) (due_date t) (status t) (Some v).

(** ** Utility functions *)

(** The loop [while str(new_id) in existing_ids: new_id += 1] of
    [generate_task_id], unrolled at most [fuel] times; [None] when the
    bound is reached before the loop condition fails. *)
Fixpoint generate_task_id_loop (fuel : nat) (existing_ids : gset string)
    (new_id : Z) : option Z :=
  match fuel with
  | O => None
  | S fuel' =>
      if decide (str new_id ∈ existing_ids)
      then generate_task_id_loop fuel' existing_ids (new_id + 1)
      else Some new_id
  end.

(** [{task['id'] for task in tasks}] *)
Definition existing_ids_of (tasks : list task) : gset string :=
  list_to_set (task_id <$> tasks).

(** The loop never needs more rounds than there are tasks, plus the one
    that leaves it (see [generate_task_id_loop_total]). *)
Definition generate_task_id (tasks : list task) : option string :=
  let existing_ids := existing_ids_of tasks in
  str <$> generate_task_id_loop (S (length tasks)) existing_ids 1.

(** ** JSON values *)

#[local] Set Warnings "-register-all".

(** The values [json.load] builds; numbers are integers here, as no
    task holds a number. *)
Inductive json :=
  | JNull
  | JBool (b : bool)
  | JInt (n : Z)
  | JStr (s : string)
  | JList (items : list json)
  | JDict (items : list (string * json)).

(** The dictionary of a task, keys in the order [add_task] writes them. *)
Definition task_to_json (t : task) : json :=
  JDict ([("id", JStr (task_id t)); ("title", JStr (title t));
          ("description", JStr (description t));
          ("due_date", JStr (due_date t)); ("status", JStr (status t))]
         ++ match priority t with
            | Some p => [("priority", JStr p)]
            | None => []
            end).

(** The value [save_tasks] hands to [json.dump]. *)
Definition tasks_to_json (tasks : list task) : json :=
  JList (task_to_json <$> tasks).

(** ** The console, the file and the monad *)

(** What reaches the console: [print(s)], the prompt of [input(s)], and
    [print(tabulate(rows, headers, tablefmt='grid'))]. *)
Inductive output :=
  | Print (s : string)
  | Prompt (s : string)
  | PrintGrid (headers : list string) (rows : list (list string)).

(** [stdin] holds the answers still to come, each as
    [input(...).strip()] returns it; [tasks_json] is the text of
    [tasks.json], [None] while the file does not exist. *)
Record world := World {
  stdin : list string;
  stdout : list output;
  tasks_json : option string
}.

(** [EOFError]: [input] at the end of the standard input; [OutOfFuel]:
    a loop of the model reached its bound; [Uncaught]: an exception, by
    its name, that a library call raised and the program does not
    catch. *)
Inductive exception :=
  | EOFError
  | OutOfFuel
  | Uncaught (name : string).

Inductive result (A : Type) :=
  | Ok (a : A) (w : world)
  | Raise (e : exception).
Global Arguments Ok {A} a w.
Global Arguments Raise {A} e.

Definition io (A : Type) : Type := world → result A.

Global Instance io_ret : MRet io := λ A a w, Ok a w.
Global Instance io_bind : MBind io := λ A B f m w,
  match m w with
  | Ok a w' => f a w'
  | Raise e => Raise e
  end.
Global Instance io_fmap : FMap io := λ A B f m w,
  match m w with
  | Ok a w' => Ok (f a) w'
  | Raise e => Raise e
  end.

Definition emit (o : output) : io unit := λ w,
  Ok () (World (stdin w) (stdout w ++ [o]) (tasks_json w)).

Definition print (s : string) : io unit := emit (Print s).

(** [input(prompt).strip()] *)
Definition input_strip (prompt : string) : io string := λ w,
  match stdin w with
  | [] => Raise EOFError
  | line :: lines => Ok line (World lines (stdout w ++ [Prompt prompt]) (tasks_json w))
  end.

(** A loop [while True: x = input(prompt).strip(); ...] whose body either
    leaves the loop with a value or prints a complaint and asks again. *)
Fixpoint input_loop {A} (prompt : string) (body : string → A + string)
    (lines : list string) (out : list output) (file : option string) : result A :=
  match lines with
  | [] => Raise EOFError
  | line :: lines' =>
      let out' := out ++ [Prompt prompt] in
      match body line with
      | inl a => Ok a (World lines' out' file)
      | inr complaint => input_loop prompt body lines' (out' ++ [Print complaint]) file
      end
  end.

Definition while_input {A} (prompt : string) (body : string → A + string) : io A :=
  λ w, input_loop prompt body (stdin w) (stdout w) (tasks_json w).

(** A model loop that stopped at its bound. *)
Definition within_bound {A} (r : option A) : io A := λ w,
  match r with
  | Some a => Ok a w
  | None => Raise OutOfFuel
  end.

(** [in] on a list of strings, as a boolean. *)
Definition is_in (s : string) (l : list string) : bool := bool_decide (s ∈ l).

Definition HEADERS : list string :=
  ["ID"; "Title"; "Description"; "Due Date"; "Status"; "Priority"].

Definition table_row (t : task) : list string :=
  [task_id t; title t; description t; due_date t; status t; get_priority t].

Definition print_table (tasks : list task) : io unit :=
  match tasks with
  | [] => print "No tasks to display."
  | _ => emit (PrintGrid HEADERS (table_row <$> tasks))
  end.

(** ** Queries: the list comprehensions of the source *)

Section search.
(** [str.lower], which maps every cased letter of Unicode to lower
    case: a function of the language, taken as it is. *)
Variable lower : string → string.

(** [found] of [search_tasks], for a keyword already lower-cased. *)
Definition search (keyword : string) (tasks : list task) : list task :=
  filter (λ t, contains keyword (lower (title t))
               || contains keyword (lower (description t)) = true) tasks.
End search.

(** [filtered] of [filter_tasks], choices '1' and '2'. *)
Definition filter_status (s : string) (tasks : list task) : list task :=
  filter (λ t, status t = s) tasks.

(** [filtered] of [filter_tasks], choice '3'. *)
Definition filter_priority (pr : string) (tasks : list task) : list task :=
  filter (λ t, get_priority t = pr) tasks.

(** [sum(1 for t in tasks if t['status'] == s)] *)
Definition count_status (s : string) (tasks : list task) : Z :=
  foldr Z.add 0 ((λ _, 1) <$> filter_status s tasks).

(** The three numbers [task_summary] prints. *)
Record summary := Summary { total : Z; pending : Z; completed : Z }.

Definition summarize (tasks : list task) : summary :=
  {| total := Z.of_nat (length tasks);
     pending := count_status "Pending" tasks;
     completed := count_status "Completed" tasks |}.

(** [sorted(l, key=key)] for string keys: Python's sort is stable and
    orders by [<] on the keys.  The model inserts each element, from the
    last to the first, in front of the first element whose key is not
    smaller; any stable ascending sort returns the same list
    ([stable_sort_unique]). *)
Section sorted.
Context {A : Type} (key : A → string).

Fixpoint sorted_insert (x : A) (l : list A) : list A :=
  match l with
  | [] => [x]
  | y :: l' =>
      if String.ltb (key y) (key x) then y :: sorted_insert x l'
      else x :: y :: l'
  end.

Definition sorted (l : list A) : list A := foldr sorted_insert [] l.
End sorted.

Definition sorted_tasks (tasks : list task) : list task := sorted due_date tasks.

(** ** Core features *)

(** [for task in tasks: if task['id'] == wanted: ... return]: the index
    and the task of the first match. *)
Definition find_task (wanted : string) (tasks : list task) : option (nat * task) :=
  list_find (λ t, task_id t = wanted) tasks.

Section operations.
(** [validate_date] wraps [datetime.strptime(date_str, DATE_FORMAT)];
    [json_dump] is the text [json.dump(..., indent=4)] writes; [lower]
    is [str.lower]. *)
Variable validate_date : string → bool.
Variable json_dump : json → string.
Variable lower : string → string.

(** The text of [tasks.json] once [tasks] has been saved. *)
Definition saved (tasks : list task) : option string :=
  Some (json_dump (tasks_to_json tasks)).

Definition save_tasks (tasks : list task) : io unit := λ w,
  Ok () (World (stdin w) (stdout w) (saved tasks)).

Definition add_task (tasks : list task) : io (list task) :=
  print (LF +:+ "--- Add New Task ---");;
  title ← input_strip "Enter task title: ";
  description ← input_strip "Enter description: ";
  due_date ← while_input ("Enter due date (" +:+ DATE_FORMAT +:+ "): ")
    (λ due_date, if validate_date due_date then inl due_date
                 else inr "Invalid date format. Please use YYYY-MM-DD.");
  priority ← while_input "Enter priority (Low/Medium/High): "
    (λ line, let priority := capitalize line in
             if is_in priority PRIORITY_LEVELS then inl priority
             else inr "Invalid priority. Choose from Low, Medium, High.");
  new_id ← within_bound (generate_task_id tasks);
  let task := Task new_id title description due_date "Pending" (Some priority) in
  let tasks := tasks ++ [task] in
  save_tasks tasks;;
  print "Task added successfully!";;
  mret tasks.

Definition view_tasks (tasks : list task) : io unit :=
  print (LF +:+ "--- All Tasks ---");;
  print_table tasks.

Definition update_task (tasks : list task) : io (list task) :=
  print (LF +:+ "--- Update Task ---");;
  wanted ← input_strip "Enter Task ID to update: ";
  match find_task wanted tasks with
  | Some (i, task) =>
      print ("Current Description: " +:+ description task);;
      desc ← input_strip "New Description (leave blank to keep): ";
      let task := if decide (desc = "") then task else set_description desc task in
      print ("Current Due Date: " +:+ due_date task);;
      task ← while_input
        ("New Due Date (" +:+ DATE_FORMAT +:+ ", leave blank to keep): ")
        (λ due, if decide (due = "") then inl task
                else if validate_date due then inl (set_due_date due task)
                else inr "Invalid date format.");
      print ("Current Status: " +:+ status task);;
      new_status ← capitalize <$>
        input_strip "New Status (Pending/Completed, leave blank to keep): ";
      let task := if is_in new_status STATUS_OPTIONS
                  then set_status new_status task else task in
      print ("Current Priority: " +:+ get_priority task);;
      new_priority ← capitalize <$>
        input_strip "New Priority (Low/Medium/High, leave blank to keep): ";
      let task := if is_in new_priority PRIORITY_LEVELS
                  then set_priority new_priority task else task in
      let tasks := <[i := task]> tasks in
      save_tasks tasks;;
      print "Task updated successfully!";;
      mret tasks
  | None =>
      print "Task ID not found.";;
      mret tasks
  end.

Definition mark_completed (tasks : list task) : io (list task) :=
  print (LF +:+ "--- Mark Task as Completed ---");;
  wanted ← input_strip "Enter Task ID to mark as completed: ";
  match find_task wanted tasks with
  | Some (i, task) =>
      let tasks := <[i := set_status "Completed" task]> tasks in
      save_tasks tasks;;
      print "Task marked as completed!";;
      mret tasks
  | None =>
      print "Task ID not found.";;
      mret tasks
  end.

Definition delete_task (tasks : list task) : io (list task) :=
  print (LF +:+ "--- Delete Task ---");;
  wanted ← input_strip "Enter Task ID to delete: ";
  match find_task wanted tasks with
  | Some (i, _) =>
      let tasks := delete i tasks in
      save_tasks tasks;;
      print "Task deleted successfully!";;
      mret tasks
  | None =>
      print "Task ID not found.";;
      mret tasks
  end.

Definition search_tasks (tasks : list task) : io unit :=
  print (LF +:+ "--- Search Tasks ---");;
  keyword ← lower <$> input_strip "Enter keyword to search (title/description): ";
  print_table (search lower keyword tasks).

Definition filter_tasks (tasks : list task) : io unit :=
  print (LF +:+ "--- Filter Tasks ---");;
  print "1. Pending";;
  print "2. Completed";;
  print "3. By Priority";;
  choice ← input_strip "Select filter option: ";
  if decide (choice = "1") then print_table (filter_status "Pending" tasks)
  else if decide (choice = "2") then print_table (filter_status "Completed" tasks)
  else if decide (choice = "3") then
    pr ← capitalize <$> input_strip "Enter priority (Low/Medium/High): ";
    if is_in pr PRIORITY_LEVELS then print_table (filter_priority pr tasks)
    else print "Invalid priority."
  else print "Invalid option.".

Definition task_summary (tasks : list task) : io unit :=
  print (LF +:+ "--- Task Summary ---");;
  let s := summarize tasks in
  print ("Total tasks: " +:+ str (total s));;
  print ("Pending tasks: " +:+ str (pending s));;
  print ("Completed tasks: " +:+ str (completed s)).

Definition sort_tasks (tasks : list task) : io unit :=
  print (LF +:+ "--- Sort Tasks by Due Date ---");;
  print_table (sorted_tasks tasks).
End operations.

(** ** File handling *)

(** What a call [json.load(f)] comes to: the value it builds, the
    exception [json.JSONDecodeError], or an exception of another class,
    by its name ([RecursionError] on a text nested too deep, [ValueError]
    on a number with too many digits, [UnicodeDecodeError] on bytes that
    are no text). *)
Inductive loaded :=
  | Loaded (value : json)
  | JSONDecodeError
  | OtherError (name : string).

Section load_tasks.
(** [json.load] on the content of the file. *)
Variable json_load : string → loaded.

(** [except json.JSONDecodeError] catches that class alone: any other
    exception leaves [load_tasks] as it was raised. *)
Definition load_tasks : io json := λ w,
  match tasks_json w with
  | None => Ok (JList []) w
  | Some text =>
      match json_load text with
      | Loaded value => Ok value w
      | JSONDecodeError => Ok (JList []) w
      | OtherError name => Raise (Uncaught name)
      end
  end.
End load_tasks.

(** ** Sessions *)

(** The calls [main] makes for the choices '1', '3', '4' and '5', the
    ones that change the list. *)
Inductive call := Add | Update | MarkCompleted | Delete.

Section sessions.
Variable validate_date : string → bool.
Variable json_dump : json → string.

Definition run_call (c : call) (tasks : list task) : io (list task) :=
  match c with
  | Add => add_task validate_date json_dump tasks
  | Update => update_task validate_date json_dump tasks
  | MarkCompleted => mark_completed json_dump tasks
  | Delete => delete_task json_dump tasks
  end.

Fixpoint run_calls (calls : list call) (tasks : list task) : io (list task) :=
  match calls with
  | [] => mret tasks
  | c :: calls' => tasks ← run_call c tasks; run_calls calls' tasks
  end.
End sessions.

(** ** Export and the menu *)

(** The rows [export_to_csv] hands to [writer.writerow], the header
    first, then one row for each task. *)
Definition export_rows (tasks : list task) : list (list string) :=
  ["ID"; "Title"; "Description"; "Due Date"; "Status"; "Priority"]
  :: ((λ t, [task_id t; title t; description t; due_date t; status t;
             get_priority t]) <$> tasks).

(** [export_to_csv].  The world holds no file but [tasks.json]: the rows
    written to [tasks_export.csv] are the value returned. *)
Definition export_to_csv (tasks : list task) : io (list (list string)) :=
  let filename := "tasks_export.csv" in
  let rows := export_rows tasks in
  print ("Tasks exported to " +:+ filename);;
  mret rows.

Definition MENU : list string :=
  [LF +:+ "==== Task Manager ===="; "1. Add Task"; "2. View Tasks";
   "3. Update Task"; "4. Mark Task as Completed"; "5. Delete Task";
   "6. Search Tasks"; "7. Filter Tasks"; "8. Task Summary";
   "9. Sort Tasks by Due Date"; "10. Export Tasks to CSV"; "11. Exit"].

Fixpoint print_lines (lines : list string) : io unit :=
  match lines with
  | [] => mret ()
  | line :: lines' => print line;; print_lines lines'
  end.

(** How a round of the menu loop ends: [Continue] with the loop, or
    [Break] out of it, each with the list of tasks as it then is. *)
Inductive control :=
  | Continue (tasks : list task)
  | Break (tasks : list task).

Section main.
Variable validate_date : string → bool.
Variable json_dump : json → string.
Variable lower : string → string.

(** The body of the loop [while True] of [main]. *)
Definition menu_round (tasks : list task) : io control :=
  print_lines MENU;;
  choice ← input_strip "Select an option (1-11): ";
  if decide (choice = "1") then
    Continue <$> add_task validate_date json_dump tasks
  else if decide (choice = "2") then
    view_tasks tasks;; mret (Continue tasks)
  else if decide (choice = "3") then
    Continue <$> update_task validate_date json_dump tasks
  else if decide (choice = "4") then
    Continue <$> mark_completed json_dump tasks
  else if decide (choice = "5") then
    Continue <$> delete_task json_dump tasks
  else if decide (choice = "6") then
    search_tasks lower tasks;; mret (Continue tasks)
  else if decide (choice = "7") then
    filter_tasks tasks;; mret (Continue tasks)
  else if decide (choice = "8") then
    task_summary tasks;; mret (Continue tasks)
  else if decide (choice = "9") then
    sort_tasks tasks;; mret (Continue tasks)
  else if decide (choice = "10") then
    export_to_csv tasks;; mret (Continue tasks)
  else if decide (choice = "11") then
    print "Goodbye!";; mret (Break tasks)
  else
    print "Invalid option. Please enter a number from 1 to 11.";;
    mret (Continue tasks).

(** The loop of [main], started on the list of tasks in memory and
    unrolled at most [fuel] times; it returns the list as it is when the
    user leaves with '11'. *)
Fixpoint main_loop (fuel : nat) (tasks : list task) : io (list task) :=
  match fuel with
  | O => within_bound None
  | S fuel' =>
      c ← menu_round tasks;
      match c with
      | Continue tasks => main_loop fuel' tasks
      | Break tasks => mret tasks
      end
  end.
End main.

(** ** Vocabulary of the properties *)

(** [n] is the smallest positive integer whose rendering is not in [ids]. *)
Definition least_unused (ids : gset string) (n : Z) : Prop :=
  0 < n ∧ (str n ∉ ids) ∧ ∀ m, 0 < m < n → str m ∈ ids.

(** The renderings of [1 .. k]. *)
Definition first_ids (k : nat) : list string :=
  (λ j : nat, str (1 + Z.of_nat j)) <$> seq 0 k.

(** The store invariant: no two tasks share an id. *)
Definition unique_ids (tasks : list task) : Prop := NoDup (task_id <$> tasks).

Global Instance unique_ids_dec tasks : Decision (unique_ids tasks).
Proof. unfold unique_ids. apply _. Defined.

(** Every status is one of the two the program writes. *)
Definition valid_statuses (tasks : list task) : Prop :=
  Forall (λ t, status t ∈ STATUS_OPTIONS) tasks.

Global Instance valid_statuses_dec tasks : Decision (valid_statuses tasks).
Proof. unfold valid_statuses. apply _. Defined.

(** [x] is placed no later than [y] when their keys are in order. *)
Definition key_le {A : Type} (key : A → string) (x y : A) : Prop :=
  String.le (key x) (key y).

(** The task [update_task] leaves in place of [t] for the answers given,
    the due date being blank or one [validate_date] accepts. *)
Definition updated (desc due new_status new_priority : string) (t : task) : task :=
  let t := if decide (desc = "") then t else set_description desc t in
  let t := if decide (due = "") then t else set_due_date due t in
  let t := if is_in (capitalize new_status) STATUS_OPTIONS
           then set_status (capitalize new_status) t else t in
  if is_in (capitalize new_priority) PRIORITY_LEVELS
  then set_priority (capitalize new_priority) t else t.

(** A task's priority as the specification words it: the one it holds,
    and "Medium" when it holds none. *)
Definition has_priority (p : string) (t : task) : Prop :=
  match priority t with
  | Some q => q = p
  | None => p = "Medium"
  end.

Global Instance has_priority_dec p t : Decision (has_priority p t).
Proof. unfold has_priority. destruct (priority t); apply _. Defined.

(** The file holds the dump of the list in memory. *)
Definition in_sync (json_dump : json → string) (tasks : list task) (w : world) : Prop :=
  tasks_json w = saved json_dump tasks.

(** A task as the program writes it: a status of [STATUS_OPTIONS], a
    priority of [PRIORITY_LEVELS] or none, a due date [validate_date]
    accepts. *)
Definition well_formed (validate_date : string → bool) (t : task) : Prop :=
  status t ∈ STATUS_OPTIONS
  ∧ (∀ p, priority t = Some p → p ∈ PRIORITY_LEVELS)
  ∧ validate_date (due_date t) = true.

(** What an operation that only talks to the console does to the world:
    the file stays, answers are read from the front of those to come,
    and what is shown comes after what was shown. *)
Definition console_step (w w' : world) : Prop :=
  tasks_json w' = tasks_json w
  ∧ (∃ used, stdin w = used ++ stdin w')
  ∧ ∃ shown, stdout w' = stdout w ++ shown.

(** The answers still to come are what is left of those there were. *)
Definition reads_on (w w' : world) : Prop := ∃ used, stdin w = used ++ stdin w'.

(** Every run of [m] that returns takes the world to one related by [R]. *)
Definition keeps {A} (R : relation world) (m : io A) : Prop :=
  ∀ w a w', m w = Ok a w' → R w w'.

(** [m] fails to return only at the end of the standard input. *)
Definition raises_only_eof {A} (m : io A) : Prop :=
  ∀ w e, m w = Raise e → e = EOFError.

(** [s] occurs in [t]. *)
Definition occurs_in (s t : string) : Prop := ∃ pre post, t = pre +:+ s +:+ post.

(** What a loop of [input] adds to the console for the answers it
    rejects: the prompt and the complaint, once for each. *)
Definition asked_again (prompt complaint : string) (rejected : list string)
    : list output :=
  rejected ≫= λ _, [Prompt prompt; Print complaint].

(** ** Stand-ins for the examples *)

(** A task with the given id, for the examples. *)
Definition mk (i : string) : task := Task i "" "" "2024-01-01" "Pending" None.

(** Stand-ins for the two library functions, for the examples: every
    date is accepted and the file text is left empty. *)
Definition any_date : string → bool := λ _, true.
Definition no_text : json → string := λ _, "".

(** A stand-in for [json.load] on the one text [null], the JSON of
    Python's [None]: it builds [JNull], as [json.load] does, and rejects
    every other text. *)
Definition only_null (text : string) : loaded :=
  if decide (text = "null") then Loaded JNull else JSONDecodeError.

(** A stand-in for [json.load] that reads the text of an empty list and
    rejects every other text. *)
Definition only_empty_list (text : string) : loaded :=
  if decide (text = "[]") then Loaded (JList []) else JSONDecodeError.

(** The text of [depth] lists, each the one element of the one around
    it: well-formed JSON. *)
Definition nested_lists (depth : N) : string :=
  N.iter depth (λ inner, "[" +:+ inner +:+ "]") "".

(** A stand-in for [json.load] on the one text of a hundred thousand
    nested lists, far deeper than the interpreter recurses: there
    [json.load] raises [RecursionError]; every other text is rejected. *)
Definition only_too_deep (text : string) : loaded :=
  if decide (text = nested_lists 100000) then OtherError "RecursionError"
  else JSONDecodeError.

(** A stand-in for [validate_date] that accepts the strings of ten
    characters. *)
Definition ten_chars : string → bool := λ s, bool_decide (String.length s = 10%nat).

(** * Properties *)

(** ** Strings *)

Lemma str_inj (a b : Z) : str a = str b → a = b.
Proof.
  unfold str. intros H.
  assert (Hn : ∀ z, NilZero.int_of_string (NilZero.string_of_int (Z.to_int z))
                    = Some (Z.to_int z)).
  { intros z. apply NilZero.isi; destruct z; simpl; try discriminate.
    - intros [= E]. by destruct (Pos.to_uint p) eqn:Hp;
        [pose proof (DecimalPos.Unsigned.to_uint_nonnil p)|..].
    - intros [= E]. by destruct (Pos.to_uint p) eqn:Hp;
        [pose proof (DecimalPos.Unsigned.to_uint_nonnil p)|..]. }
  apply DecimalZ.to_int_inj.
  pose proof (Hn a) as Ha. rewrite H, Hn in Ha. congruence.
Qed.

Example str_examples : str 1 = "1" ∧ str 10 = "10" ∧ str 207 = "207".
Proof. by vm_compute. Qed.

Example capitalize_examples :
  capitalize "low" = "Low" ∧ capitalize "HIGH" = "High"
  ∧ capitalize "mEDIUM" = "Medium" ∧ capitalize "" = ""
  ∧ capitalize "completed" = "Completed".
Proof. by vm_compute. Qed.

Example contains_examples :
  contains "" "" = true ∧ contains "ilk" "buy milk" = true
  ∧ contains "milks" "buy milk" = false.
Proof. by vm_compute. Qed.

(** ** Identifier generation *)

Section generate_task_id.
Implicit Types (ids : gset string) (n m : Z).

Lemma NoDup_first_ids k : NoDup (first_ids k).
Proof.
  apply NoDup_fmap_2; [|apply NoDup_seq].
  intros i j Hij. apply str_inj in Hij. lia.
Qed.

(** Pigeonhole: if the renderings of [1 .. k] are all used, the set has
    at least [k] members. *)
Lemma used_prefix_size ids (k : nat) :
  (∀ m, 0 < m ≤ Z.of_nat k → str m ∈ ids) → (k ≤ size ids)%nat.
Proof.
  intros Hused.
  replace k with (length (first_ids k)) at 1
    by (unfold first_ids; by rewrite length_fmap, length_seq).
  rewrite <-(size_list_to_set (C:=gset string)) by apply NoDup_first_ids.
  apply subseteq_size. intros s Hs.
  apply elem_of_list_to_set, list_elem_of_fmap in Hs as (j & -> & Hj).
  apply elem_of_seq in Hj. apply Hused. lia.
Qed.

Lemma generate_task_id_loop_spec fuel ids n :
  0 < n →
  (∀ m, 0 < m < n → str m ∈ ids) →
  (size ids < fuel + Z.to_nat (n - 1))%nat →
  ∃ r, generate_task_id_loop fuel ids n = Some r ∧ n ≤ r ∧ least_unused ids r.
Proof.
  revert n. induction fuel as [|fuel IH]; intros n Hn Hbelow Hsize.
  - exfalso. assert (Z.to_nat (n - 1) ≤ size ids)%nat; [|lia].
    apply used_prefix_size. intros m Hm. apply Hbelow. lia.
  - simpl. destruct (decide (str n ∈ ids)) as [Hin|Hout].
    + destruct (IH (n + 1)) as (r & Hr & Hle & Hleast); [lia| |lia|].
      * intros m Hm. destruct (decide (m = n)) as [->|]; [done|].
        apply Hbelow. lia.
      * exists r. split_and!; [done|lia|done].
    + exists n. split_and!; [done|lia|]. by split_and!.
Qed.

Lemma least_unused_unique ids n m :
  least_unused ids n → least_unused ids m → n = m.
Proof.
  intros (Hn & Hnout & Hnlt) (Hm & Hmout & Hmlt).
  destruct (Z.lt_trichotomy n m) as [?|[?|?]]; [|done|].
  - destruct Hnout. apply Hmlt. lia.
  - destruct Hmout. apply Hnlt. lia.
Qed.

Lemma size_existing_ids (tasks : list task) :
  (size (existing_ids_of tasks) ≤ length tasks)%nat.
Proof.
  unfold existing_ids_of. induction tasks as [|t tasks IH].
  - rewrite fmap_nil, list_to_set_nil, size_empty. lia.
  - rewrite fmap_cons, list_to_set_cons, size_union_alt, size_singleton.
    assert (size (list_to_set (task_id <$> tasks) ∖ {[task_id t]} : gset string)
            ≤ size (list_to_set (task_id <$> tasks) : gset string))%nat
      by (apply subseteq_size, subseteq_difference_l; reflexivity).
    simpl. lia.
Qed.

(** Any bound above the number of ids lets the loop run to its end,
    and the bound does not change its result. *)
Lemma generate_task_id_loop_total fuel ids :
  (size ids < fuel)%nat →
  ∃ r, generate_task_id_loop fuel ids 1 = Some r ∧ least_unused ids r.
Proof.
  intros Hfuel.
  destruct (generate_task_id_loop_spec fuel ids 1) as (r & ? & ? & ?);
    [lia|intros; lia|simpl; lia|eauto].
Qed.

Lemma generate_task_id_least (tasks : list task) :
  ∃ n, generate_task_id tasks = Some (str n)
       ∧ least_unused (existing_ids_of tasks) n.
Proof.
  destruct (generate_task_id_loop_total (S (length tasks)) (existing_ids_of tasks))
    as (r & Hr & Hleast).
  { pose proof (size_existing_ids tasks). lia. }
  exists r. unfold generate_task_id. cbv zeta. by rewrite Hr.
Qed.
End generate_task_id.

(** ** Looking a task up by id *)

Section find_task.
Implicit Types (tasks : list task) (wanted : string) (t : task) (i : nat).

Lemma find_task_Some wanted tasks i t :
  find_task wanted tasks = Some (i, t) ↔
  tasks !! i = Some t ∧ task_id t = wanted ∧
  ∀ j t', tasks !! j = Some t' → (j < i)%nat → task_id t' ≠ wanted.
Proof. apply (list_find_Some (λ t, task_id t = wanted)). Qed.

Lemma find_task_None wanted tasks :
  find_task wanted tasks = None ↔ wanted ∉ task_id <$> tasks.
Proof.
  unfold find_task. rewrite list_find_None, Forall_forall, list_elem_of_fmap.
  split.
  - intros Hnone (t & Heq & Hin). by apply (Hnone t).
  - intros Hnone t Hin Heq. apply Hnone. by exists t.
Qed.

Lemma find_task_present wanted tasks :
  wanted ∈ task_id <$> tasks → ∃ i t, find_task wanted tasks = Some (i, t).
Proof.
  intros Hin. destruct (find_task wanted tasks) as [[i t]|] eqn:Hfind; [eauto|].
  by apply find_task_None in Hfind.
Qed.

Lemma find_task_elem wanted tasks i t :
  find_task wanted tasks = Some (i, t) → wanted ∈ task_id <$> tasks.
Proof.
  intros (Hi & <- & _)%find_task_Some.
  apply list_elem_of_fmap. eauto using list_elem_of_lookup_2.
Qed.

(** The first match splits the list: nothing before it has the id. *)
Lemma find_task_split wanted tasks i t :
  find_task wanted tasks = Some (i, t) →
  ∃ before after,
    tasks = before ++ t :: after ∧ length before = i
    ∧ (wanted ∉ task_id <$> before).
Proof.
  intros (Hi & Hid & Hfirst)%find_task_Some.
  exists (take i tasks), (drop (S i) tasks). split_and!.
  - by rewrite take_drop_middle.
  - apply length_take_le. apply lookup_lt_Some in Hi. lia.
  - intros (t' & Heq & Hin)%list_elem_of_fmap.
    apply list_elem_of_lookup in Hin as (j & Hj).
    apply lookup_take_Some in Hj as (Hj & Hlt).
    by apply (Hfirst j t').
Qed.

Lemma find_task_middle wanted before t after :
  (wanted ∉ task_id <$> before) → task_id t = wanted →
  find_task wanted (before ++ t :: after) = Some (length before, t).
Proof.
  intros Hbefore Hid. apply find_task_Some. split_and!; [|done|].
  - by rewrite list_lookup_middle.
  - intros j t' Hj Hlt Heq. apply Hbefore, list_elem_of_fmap.
    exists t'. split; [done|].
    rewrite lookup_app_l in Hj by done. eauto using list_elem_of_lookup_2.
Qed.
(** The first match, with what [tasks.pop(i)] and an assignment to the
    task found leave behind. *)
Lemma find_task_split_ops wanted tasks i t :
  find_task wanted tasks = Some (i, t) →
  ∃ before after,
    tasks = before ++ t :: after
    ∧ length before = i
    ∧ task_id t = wanted
    ∧ (wanted ∉ task_id <$> before)
    ∧ delete i tasks = before ++ after
    ∧ ∀ t', <[i := t']> tasks = before ++ t' :: after.
Proof.
  intros Hfind. pose proof Hfind as (_ & Hid & _)%find_task_Some.
  apply find_task_split in Hfind as (before & after & -> & <- & Hbefore).
  exists before, after. split_and!; [done|done|done|done| |].
  - rewrite delete_take_drop.
    rewrite take_app_length, (cons_middle t before after), app_assoc.
    rewrite drop_app_length'; [done|]. rewrite length_app. simpl. lia.
  - intros t'. rewrite insert_app_r_alt by done.
    by rewrite Nat.sub_diag.
Qed.
End find_task.

(** ** Running the operations *)

Section monad.
Context {A B : Type}.

Lemma bind_Ok (m : io A) (f : A → io B) w b w' :
  (m ≫= f) w = Ok b w' ↔ ∃ a w1, m w = Ok a w1 ∧ f a w1 = Ok b w'.
Proof.
  unfold mbind, io_bind. destruct (m w) as [a w1|e]; split.
  - eauto.
  - by intros (a' & w1' & [= <- <-] & ?).
  - done.
  - by intros (? & ? & ? & ?).
Qed.

Lemma fmap_Ok (g : A → B) (m : io A) w b w' :
  (g <$> m) w = Ok b w' ↔ ∃ a, m w = Ok a w' ∧ b = g a.
Proof.
  unfold fmap, io_fmap. destruct (m w) as [a w1|e]; split.
  - intros [= <- <-]. eauto.
  - by intros (a' & [= <- <-] & ->).
  - done.
  - by intros (? & ? & ?).
Qed.

Lemma input_loop_Ok prompt (body : string → A + string) lines out file a w' :
  input_loop prompt body lines out file = Ok a w' →
  ∃ rejected line,
    lines = rejected ++ line :: stdin w'
    ∧ Forall (λ l, ∃ complaint, body l = inr complaint) rejected
    ∧ body line = inl a ∧ tasks_json w' = file.
Proof.
  revert out. induction lines as [|l lines IH]; intros out; simpl; [done|].
  destruct (body l) as [a'|complaint] eqn:Hbody.
  - intros [= <- <-]. exists [], l. by split_and!.
  - intros (rejected & line & -> & Hrej & Hline & Hfile)%IH.
    exists (l :: rejected), line. split_and!; [done| |done|done].
    constructor; eauto.
Qed.

Lemma input_loop_accept prompt (body : string → A + string)
    rejected line rest out file a :
  Forall (λ l, ∃ complaint, body l = inr complaint) rejected →
  body line = inl a →
  ∃ out', input_loop prompt body (rejected ++ line :: rest) out file
          = Ok a (World rest out' file).
Proof.
  intros Hrej Hline. revert out.
  induction Hrej as [|l rejected [complaint Hl] _ IH]; intros out; simpl.
  - rewrite Hline. eauto.
  - rewrite Hl. apply IH.
Qed.
End monad.

Lemma emit_Ok o w u w' :
  emit o w = Ok u w' →
  stdin w' = stdin w ∧ stdout w' = stdout w ++ [o] ∧ tasks_json w' = tasks_json w.
Proof. by intros [= <- <-]. Qed.

Lemma input_strip_Ok prompt w line w' :
  input_strip prompt w = Ok line w' →
  stdin w = line :: stdin w' ∧ tasks_json w' = tasks_json w.
Proof.
  unfold input_strip. destruct (stdin w) as [|l ls] eqn:Hin; [done|].
  by intros [= <- <-].
Qed.

Lemma print_table_Ok tasks w u w' :
  print_table tasks w = Ok u w' →
  stdin w' = stdin w ∧ tasks_json w' = tasks_json w.
Proof. destruct tasks; intros (? & _ & ?)%emit_Ok; eauto. Qed.

(** Steps through the binds of an operation that returned. *)
Ltac inv_io H :=
  repeat match type of H with
  | (_ ≫= _) _ = Ok _ _ =>
      let H1 := fresh "Hrun" in
      apply bind_Ok in H as (? & ? & H1 & H)
  end.

Section runs.
Variable validate_date : string → bool.
Variable json_dump : json → string.
Implicit Types (tasks : list task) (w : world) (wanted : string).

Lemma mark_completed_run tasks w wanted rest :
  stdin w = wanted :: rest →
  mark_completed json_dump tasks w =
    match find_task wanted tasks with
    | Some (i, t) =>
        let tasks' := <[i := set_status "Completed" t]> tasks in
        Ok tasks'
           (World rest
              (stdout w ++ [Print (LF +:+ "--- Mark Task as Completed ---");
                            Prompt "Enter Task ID to mark as completed: ";
                            Print "Task marked as completed!"])
              (saved json_dump tasks'))
    | None =>
        Ok tasks
           (World rest
              (stdout w ++ [Print (LF +:+ "--- Mark Task as Completed ---");
                            Prompt "Enter Task ID to mark as completed: ";
                            Print "Task ID not found."])
              (tasks_json w))
    end.
Proof.
  destruct w as [lines out file]. simpl. intros ->.
  unfold mark_completed, mbind, io_bind, print, emit, input_strip. simpl.
  destruct (find_task wanted tasks) as [[i t]|]; simpl;
    by rewrite <-!app_assoc.
Qed.

Lemma delete_task_run tasks w wanted rest :
  stdin w = wanted :: rest →
  delete_task json_dump tasks w =
    match find_task wanted tasks with
    | Some (i, _) =>
        Ok (delete i tasks)
           (World rest
              (stdout w ++ [Print (LF +:+ "--- Delete Task ---");
                            Prompt "Enter Task ID to delete: ";
                            Print "Task deleted successfully!"])
              (saved json_dump (delete i tasks)))
    | None =>
        Ok tasks
           (World rest
              (stdout w ++ [Print (LF +:+ "--- Delete Task ---");
                            Prompt "Enter Task ID to delete: ";
                            Print "Task ID not found."])
              (tasks_json w))
    end.
Proof.
  destruct w as [lines out file]. simpl. intros ->.
  unfold delete_task, mbind, io_bind, print, emit, input_strip. simpl.
  destruct (find_task wanted tasks) as [[i t]|]; simpl;
    by rewrite <-!app_assoc.
Qed.

(** [update_task] when every answer after the id is blank. *)
Lemma update_task_blank_run tasks w wanted rest i t :
  stdin w = wanted :: "" :: "" :: "" :: "" :: rest →
  find_task wanted tasks = Some (i, t) →
  update_task validate_date json_dump tasks w =
    Ok tasks
       (World rest
          (stdout w ++
             [Print (LF +:+ "--- Update Task ---");
              Prompt "Enter Task ID to update: ";
              Print ("Current Description: " +:+ description t);
              Prompt "New Description (leave blank to keep): ";
              Print ("Current Due Date: " +:+ due_date t);
              Prompt ("New Due Date (" +:+ DATE_FORMAT +:+ ", leave blank to keep): ");
              Print ("Current Status: " +:+ status t);
              Prompt "New Status (Pending/Completed, leave blank to keep): ";
              Print ("Current Priority: " +:+ get_priority t);
              Prompt "New Priority (Low/Medium/High, leave blank to keep): ";
              Print "Task updated successfully!"])
          (saved json_dump tasks)).
Proof.
  destruct w as [lines out file]. simpl. intros -> Hfind.
  pose proof Hfind as (Hi & _)%find_task_Some.
  unfold update_task, mbind, io_bind, fmap, io_fmap, print, emit, input_strip,
    while_input. simpl. rewrite Hfind. simpl.
  rewrite (list_insert_id _ _ _ Hi). by rewrite <-!app_assoc.
Qed.
(** What [add_task] did when it returned. *)
Lemma add_task_Ok tasks w tasks' w' :
  add_task validate_date json_dump tasks w = Ok tasks' w' →
  ∃ n new_title new_description new_due_date new_priority,
    tasks' = tasks ++ [Task (str n) new_title new_description new_due_date
                            "Pending" (Some new_priority)]
    ∧ least_unused (existing_ids_of tasks) n
    ∧ validate_date new_due_date = true
    ∧ new_priority ∈ PRIORITY_LEVELS
    ∧ tasks_json w' = saved json_dump tasks'.
Proof.
  unfold add_task. intros Hrun. inv_io Hrun.
  injection Hrun as <- <-.
  match goal with H : within_bound _ _ = _ |- _ => rename H into Hid end.
  match goal with H : save_tasks _ _ _ = _ |- _ => injection H as _ <- end.
  repeat match goal with
  | H : while_input _ _ _ = Ok _ _ |- _ =>
      apply input_loop_Ok in H as (? & ? & _ & _ & H & _)
  end.
  destruct (generate_task_id_least tasks) as (n & Hn & Hleast).
  unfold within_bound in Hid. rewrite Hn in Hid. injection Hid as <- _.
  eexists n, _, _, _, _. split_and!; [done|done| | |].
  - match goal with H : (if validate_date ?d then _ else _) = inl _ |- _ =>
      destruct (validate_date d) eqn:Hv; [by injection H as <-|done] end.
  - match goal with H : (if is_in _ _ then _ else _) = inl _ |- _ =>
      unfold is_in in H; case_bool_decide; [by injection H as <-|done]
    end.
  - match goal with H : print _ _ = Ok _ ?w |- tasks_json ?w = _ =>
      by apply emit_Ok in H as (_ & _ & ->) end.
Qed.

(** [add_task] returns as soon as a date and a priority are accepted. *)
Lemma add_task_run tasks w new_title new_description bad_dates new_due_date
    bad_priorities line rest :
  stdin w = new_title :: new_description
              :: bad_dates ++ new_due_date :: bad_priorities ++ line :: rest →
  Forall (λ d, validate_date d = false) bad_dates →
  validate_date new_due_date = true →
  Forall (λ l, capitalize l ∉ PRIORITY_LEVELS) bad_priorities →
  capitalize line ∈ PRIORITY_LEVELS →
  ∃ n out,
    least_unused (existing_ids_of tasks) n ∧
    let tasks' := tasks ++ [Task (str n) new_title new_description new_due_date
                                 "Pending" (Some (capitalize line))] in
    add_task validate_date json_dump tasks w
    = Ok tasks' (World rest out (saved json_dump tasks')).
Proof.
  destruct w as [lines out file]. simpl.
  intros -> Hbad_dates Hdate Hbad_priorities Hline.
  destruct (generate_task_id_least tasks) as (n & Hn & Hleast).
  unfold add_task, mbind, io_bind, print, emit, input_strip, while_input. simpl.
  match goal with |- context [input_loop ?p ?body (bad_dates ++ _ :: ?r) ?o ?f] =>
    destruct (input_loop_accept p body bad_dates new_due_date r o f new_due_date)
      as (out1 & ->)
  end.
  { eapply Forall_impl; [done|]. intros d ->. eauto. }
  { by rewrite Hdate. }
  simpl.
  match goal with |- context [input_loop ?p ?body (bad_priorities ++ _ :: ?r) ?o ?f] =>
    destruct (input_loop_accept p body bad_priorities line r o f (capitalize line))
      as (out2 & ->)
  end.
  { eapply Forall_impl; [done|]. intros l Hl. unfold is_in.
    rewrite bool_decide_eq_false_2 by done. eauto. }
  { unfold is_in. by rewrite bool_decide_eq_true_2. }
  simpl. rewrite Hn. simpl. eauto.
Qed.

(** What [update_task] did when it returned: at most the task found
    changed, and neither its id nor its title did. *)
Lemma update_task_Ok tasks w tasks' w' :
  update_task validate_date json_dump tasks w = Ok tasks' w' →
  ∃ wanted lines, stdin w = wanted :: lines ∧
    match find_task wanted tasks with
    | Some (i, t) =>
        ∃ t', tasks' = <[i := t']> tasks
              ∧ task_id t' = task_id t ∧ title t' = title t
              ∧ (status t' = status t ∨ status t' ∈ STATUS_OPTIONS)
              ∧ tasks_json w' = saved json_dump tasks'
    | None => tasks' = tasks ∧ tasks_json w' = tasks_json w
    end.
Proof.
  unfold update_task. intros Hrun. inv_io Hrun.
  match goal with H : input_strip _ _ = Ok ?x _, H' : print _ w = _ |- _ =>
    apply input_strip_Ok in H as (Hin & Hfile);
    apply emit_Ok in H' as (Hin' & _ & Hfile'); exists x; eexists;
    split; [by rewrite <-Hin', Hin|]
  end.
  destruct (find_task _ tasks) as [[i t]|].
  - inv_io Hrun. injection Hrun as <- <-.
    match goal with H : save_tasks _ _ _ = _ |- _ => injection H as _ <- end.
    match goal with H : print _ _ = Ok _ ?w |- context [tasks_json ?w] =>
      apply emit_Ok in H as (_ & _ & ->) end.
    simpl. eexists. split; [done|].
    repeat match goal with H : (capitalize <$> _) _ = Ok _ _ |- _ =>
      apply fmap_Ok in H as (? & _ & ->) end.
    match goal with H : while_input _ _ _ = Ok ?t1 _ |- _ =>
      apply input_loop_Ok in H as (? & due & _ & _ & H & _);
      assert (task_id t1 = task_id t ∧ title t1 = title t ∧ status t1 = status t)
        as (Hid1 & Htitle1 & Hstatus1)
    end.
    { repeat case_decide; destruct (validate_date due); simplify_eq; done. }
    split_and!; [| | |done].
    + repeat case_match; simpl; congruence.
    + repeat case_match; simpl; congruence.
    + unfold is_in. repeat case_match; simpl; try (left; congruence);
        right; by eapply bool_decide_eq_true_1.
  - inv_io Hrun. injection Hrun as <- <-.
    match goal with H : print _ _ = Ok _ ?w |- context [tasks_json ?w] =>
      apply emit_Ok in H as (_ & _ & ->) end.
    simpl. split; [done|congruence].
Qed.
End runs.

(** ** Sorting by key *)

Lemma ltb_false_le (a b : string) : String.ltb a b = false ↔ String.le b a.
Proof.
  unfold String.le, String.ltb, String.leb. rewrite (String.compare_antisym b a).
  by destruct (a ?= b)%string.
Qed.

Lemma ltb_true_lt (a b : string) : String.ltb a b = true → String.le a b ∧ a ≠ b.
Proof.
  unfold String.le, String.ltb, String.leb.
  destruct (a ?= b)%string eqn:Hcmp; try done. intros _. split; [done|].
  intros ->. assert ((b ?= b)%string = Eq) as Hrefl; [|congruence].
  pose proof (String.compare_antisym b b) as Hanti.
  by destruct (b ?= b)%string.
Qed.

Section sorted_facts.
Context {A : Type} (key : A → string).
Implicit Types (x y : A) (l : list A).

Lemma sorted_insert_Permutation x l : sorted_insert key x l ≡ₚ x :: l.
Proof.
  induction l as [|y l IH]; simpl; [done|].
  destruct (String.ltb (key y) (key x)); [|done].
  by rewrite IH, Permutation_swap.
Qed.

Lemma sorted_Permutation l : sorted key l ≡ₚ l.
Proof.
  induction l as [|x l IH]; simpl; [done|].
  by rewrite sorted_insert_Permutation, IH.
Qed.

Lemma sorted_insert_StronglySorted x l :
  StronglySorted (key_le key) l → StronglySorted (key_le key) (sorted_insert key x l).
Proof.
  induction 1 as [|y l Hsorted IH Hall]; simpl.
  - by repeat constructor.
  - destruct (String.ltb (key y) (key x)) eqn:Hlt.
    + constructor; [done|]. rewrite sorted_insert_Permutation.
      constructor; [|done]. by apply ltb_true_lt in Hlt as [? _].
    + apply ltb_false_le in Hlt. constructor; [by constructor|].
      constructor; [done|].
      eapply Forall_impl; [done|]. intros z Hz. unfold key_le in *. by etrans.
Qed.

Lemma sorted_StronglySorted l : StronglySorted (key_le key) (sorted key l).
Proof.
  induction l; simpl; [constructor|by apply sorted_insert_StronglySorted].
Qed.

(** Stability: the elements of any one key keep their order. *)
Lemma sorted_insert_filter_key x l (k : string) :
  filter (λ y, key y = k) (sorted_insert key x l)
  = filter (λ y, key y = k) (x :: l).
Proof.
  induction l as [|y l IH]; simpl; [done|].
  destruct (String.ltb (key y) (key x)) eqn:Hlt; [|done].
  apply ltb_true_lt in Hlt as [_ Hne].
  rewrite !filter_cons, IH, !filter_cons.
  repeat case_decide; congruence.
Qed.

Lemma sorted_filter_key l (k : string) :
  filter (λ y, key y = k) (sorted key l) = filter (λ y, key y = k) l.
Proof.
  induction l as [|x l IH]; simpl; [done|].
  by rewrite sorted_insert_filter_key, !filter_cons, IH.
Qed.

(** A list already in order is left as it is. *)
Lemma sorted_id l : StronglySorted (key_le key) l → sorted key l = l.
Proof.
  induction 1 as [|x l Hsorted IH Hall]; simpl; [done|].
  rewrite IH. destruct Hall as [|y l Hxy _]; simpl; [done|].
  by rewrite (proj2 (ltb_false_le _ _) Hxy).
Qed.

Lemma sorted_idemp l : sorted key (sorted key l) = sorted key l.
Proof. apply sorted_id, sorted_StronglySorted. Qed.

(** Order, permutation and stability leave no choice: every list with
    the three properties is the one [sorted] builds. *)
Lemma stable_sort_unique l l1 l2 :
  StronglySorted (key_le key) l1 → StronglySorted (key_le key) l2 →
  (∀ k, filter (λ y, key y = k) l1 = filter (λ y, key y = k) l) →
  (∀ k, filter (λ y, key y = k) l2 = filter (λ y, key y = k) l) →
  l1 = l2.
Proof.
  intros Hs1 Hs2 H1 H2.
  assert (∀ k, filter (λ y, key y = k) l1 = filter (λ y, key y = k) l2) as Hsame
    by (intros k; by rewrite H1, H2).
  clear H1 H2 l. revert l2 Hs2 Hsame.
  induction Hs1 as [|x l1 Hs1 IH Hall1]; intros l2 Hs2 Hsame.
  - destruct l2 as [|y l2]; [done|]. specialize (Hsame (key y)).
    rewrite filter_nil, filter_cons in Hsame. by case_decide.
  - destruct Hs2 as [|y l2 Hs2 Hall2].
    { specialize (Hsame (key x)). rewrite filter_nil, filter_cons in Hsame.
      by case_decide. }
    assert (x ∈ y :: l2) as Hx.
    { eapply (list_elem_of_filter (λ z, key z = key x)). rewrite <-Hsame.
      rewrite filter_cons. case_decide; [left|done]. }
    assert (y ∈ x :: l1) as Hy.
    { eapply (list_elem_of_filter (λ z, key z = key y)). rewrite Hsame.
      rewrite filter_cons. case_decide; [left|done]. }
    assert (key x = key y) as Hkey.
    { apply (anti_symm String.le).
      - apply elem_of_cons in Hy as [->|Hy]; [done|].
        by apply (proj1 (Forall_forall _ _) Hall1).
      - apply elem_of_cons in Hx as [->|Hx]; [done|].
        by apply (proj1 (Forall_forall _ _) Hall2). }
    assert (x = y) as ->.
    { specialize (Hsame (key x)). rewrite !filter_cons in Hsame.
      repeat case_decide; congruence. }
    f_equal. apply IH; [done|]. intros k. specialize (Hsame k).
    rewrite !filter_cons in Hsame. case_decide; congruence.
Qed.
End sorted_facts.

(** ** Updating and filtering, run on their answers *)

Section more_runs.
Variable validate_date : string → bool.
Variable json_dump : json → string.
Implicit Types (tasks : list task) (w : world) (wanted : string).

Lemma update_task_run tasks w wanted desc bad_dues due new_status new_priority
    rest i t :
  stdin w = wanted :: desc :: bad_dues ++ due :: new_status :: new_priority :: rest →
  find_task wanted tasks = Some (i, t) →
  Forall (λ d, d ≠ "" ∧ validate_date d = false) bad_dues →
  due = "" ∨ validate_date due = true →
  ∃ out,
    let tasks' := <[i := updated desc due new_status new_priority t]> tasks in
    update_task validate_date json_dump tasks w
    = Ok tasks' (World rest out (saved json_dump tasks')).
Proof.
  destruct w as [lines out file]. simpl. intros -> Hfind Hbad Hdue.
  unfold update_task, mbind, io_bind, fmap, io_fmap, print, emit, input_strip,
    while_input. simpl. rewrite Hfind. simpl.
  match goal with |- context [input_loop ?p ?body (bad_dues ++ _ :: ?r) ?o ?f] =>
    destruct (input_loop_accept p body bad_dues due r o f
                (if decide (due = "")
                 then (if decide (desc = "") then t else set_description desc t)
                 else set_due_date due
                        (if decide (desc = "") then t else set_description desc t)))
      as (out1 & ->)
  end.
  { eapply Forall_impl; [done|]. intros d [Hd ->].
    rewrite decide_False by done. eauto. }
  { destruct (decide (due = "")); [done|]. by destruct Hdue as [?| ->]. }
  simpl. unfold updated. eauto.
Qed.

Lemma filter_tasks_priority_run tasks w line rest :
  stdin w = "3" :: line :: rest →
  capitalize line ∈ PRIORITY_LEVELS →
  filter_tasks tasks w
  = print_table (filter_priority (capitalize line) tasks)
      (World rest
         (stdout w ++ [Print (LF +:+ "--- Filter Tasks ---"); Print "1. Pending";
                       Print "2. Completed"; Print "3. By Priority";
                       Prompt "Select filter option: ";
                       Prompt "Enter priority (Low/Medium/High): "])
         (tasks_json w)).
Proof.
  destruct w as [lines out file]. simpl. intros -> Hline.
  unfold filter_tasks, mbind, io_bind, fmap, io_fmap, print, emit, input_strip.
  simpl. unfold is_in. rewrite bool_decide_eq_true_2 by done.
  by rewrite <-!app_assoc.
Qed.
End more_runs.

(** ** Distinct ids *)

Section unique_ids.
Variable validate_date : string → bool.
Variable json_dump : json → string.
Implicit Types (tasks : list task) (w : world).

Lemma add_task_fresh tasks w tasks' w' :
  add_task validate_date json_dump tasks w = Ok tasks' w' →
  ∃ t, tasks' = tasks ++ [t] ∧ (task_id t ∉ task_id <$> tasks).
Proof.
  intros (n & ? & ? & ? & ? & -> & (_ & Hout & _) & _)%add_task_Ok.
  eexists. split; [done|]. simpl.
  unfold existing_ids_of in Hout. by rewrite elem_of_list_to_set in Hout.
Qed.

Lemma unique_ids_snoc tasks t :
  unique_ids tasks → (task_id t ∉ task_id <$> tasks) → unique_ids (tasks ++ [t]).
Proof.
  unfold unique_ids. intros Hnd Hout. rewrite fmap_app. apply NoDup_app.
  split_and!; [done| |apply NoDup_singleton].
  intros i Hi ->%list_elem_of_singleton. done.
Qed.

Lemma unique_ids_insert tasks i t t' :
  tasks !! i = Some t → task_id t' = task_id t →
  unique_ids tasks → unique_ids (<[i := t']> tasks).
Proof.
  intros Hi Hid. unfold unique_ids.
  rewrite list_fmap_insert, Hid, list_insert_id; [done|].
  by rewrite list_lookup_fmap, Hi.
Qed.

Lemma unique_ids_delete tasks i : unique_ids tasks → unique_ids (delete i tasks).
Proof.
  unfold unique_ids. rewrite list_fmap_delete.
  intros Hnd. eapply sublist_NoDup; [done|apply sublist_delete].
Qed.

Lemma run_call_unique_ids c tasks w tasks' w' :
  unique_ids tasks →
  run_call validate_date json_dump c tasks w = Ok tasks' w' →
  unique_ids tasks'.
Proof.
  intros Hnd. destruct c; simpl.
  - intros (t & -> & Hfresh)%add_task_fresh. by apply unique_ids_snoc.
  - intros (wanted & lines & _ & Hcase)%update_task_Ok.
    destruct (find_task wanted tasks) as [[i t]|] eqn:Hfind.
    + destruct Hcase as (t' & -> & Hid & _).
      apply find_task_Some in Hfind as (Hi & _). by eapply unique_ids_insert.
    + by destruct Hcase as [-> _].
  - destruct (stdin w) as [|wanted rest] eqn:Hin.
    { unfold mark_completed, mbind, io_bind, print, emit, input_strip. simpl.
      by rewrite Hin. }
    rewrite (mark_completed_run _ _ _ _ _ Hin).
    destruct (find_task wanted tasks) as [[i t]|] eqn:Hfind.
    + intros [= <- _]. apply find_task_Some in Hfind as (Hi & _).
      by eapply unique_ids_insert.
    + by intros [= <- _].
  - destruct (stdin w) as [|wanted rest] eqn:Hin.
    { unfold delete_task, mbind, io_bind, print, emit, input_strip. simpl.
      by rewrite Hin. }
    rewrite (delete_task_run _ _ _ _ _ Hin).
    destruct (find_task wanted tasks) as [[i t]|] eqn:Hfind.
    + intros [= <- _]. by apply unique_ids_delete.
    + by intros [= <- _].
Qed.

Lemma run_calls_unique_ids calls tasks w tasks' w' :
  unique_ids tasks →
  run_calls validate_date json_dump calls tasks w = Ok tasks' w' →
  unique_ids tasks'.
Proof.
  revert tasks w. induction calls as [|c calls IH]; intros tasks w Hnd; simpl.
  - by intros [= <- _].
  - intros (tasks1 & w1 & Hcall & Hrest)%bind_Ok.
    eapply IH; [|done]. by eapply run_call_unique_ids.
Qed.

Lemma run_adds_fresh n tasks w tasks' w' :
  run_calls validate_date json_dump (replicate n Add) tasks w = Ok tasks' w' →
  ∃ added,
    tasks' = tasks ++ added ∧ length added = n
    ∧ NoDup (task_id <$> added)
    ∧ ∀ t, t ∈ added → task_id t ∉ task_id <$> tasks.
Proof.
  revert tasks w. induction n as [|n IH]; intros tasks w; simpl.
  - intros [= <- _]. exists []. rewrite app_nil_r.
    split_and!; [done|done|constructor|]. intros t Ht. by apply elem_of_nil in Ht.
  - intros (tasks1 & w1 & Hadd & Hrest)%bind_Ok.
    apply add_task_fresh in Hadd as (t & -> & Hfresh).
    apply IH in Hrest as (added & -> & Hlen & Hnd & Hout).
    exists (t :: added). split_and!.
    + by rewrite <-app_assoc.
    + simpl. by rewrite Hlen.
    + rewrite fmap_cons. constructor; [|done].
      intros (t' & Heq & Hin)%list_elem_of_fmap.
      apply (Hout t' Hin). rewrite <-Heq, fmap_app.
      apply elem_of_app. right. by apply list_elem_of_singleton.
    + intros t' [->|Hin]%elem_of_cons; [done|].
      intros Hbad. apply (Hout t' Hin). rewrite fmap_app.
      apply elem_of_app. by left.
Qed.
End unique_ids.

(** ** Exceptions *)

Section raises.
Variable validate_date : string → bool.
Variable json_dump : json → string.

Lemma bind_Raise {A B} (m : io A) (f : A → io B) w e :
  (m ≫= f) w = Raise e ↔
  m w = Raise e ∨ ∃ a w1, m w = Ok a w1 ∧ f a w1 = Raise e.
Proof.
  unfold mbind, io_bind. destruct (m w) as [a w1|e']; split.
  - intros H. right. eauto.
  - by intros [?|(? & ? & [= <- <-] & ?)].
  - intros [= ->]. by left.
  - by intros [[= ->]|(? & ? & ? & ?)].
Qed.

Lemma fmap_Raise {A B} (g : A → B) (m : io A) w e :
  (g <$> m) w = Raise e ↔ m w = Raise e.
Proof.
  unfold fmap, io_fmap. destruct (m w); [done|].
  split; by intros [= ->].
Qed.

Lemma input_strip_Raise prompt w e : input_strip prompt w = Raise e → e = EOFError.
Proof. unfold input_strip. destruct (stdin w); [by intros [= <-]|done]. Qed.

Lemma while_input_Raise {A} prompt (body : string → A + string) w e :
  while_input prompt body w = Raise e → e = EOFError.
Proof.
  unfold while_input. generalize (stdout w).
  induction (stdin w) as [|line lines IH]; intros out; simpl.
  - by intros [= <-].
  - destruct (body line); [done|apply IH].
Qed.

Lemma generate_task_id_within_bound (tasks : list task) w e :
  within_bound (generate_task_id tasks) w ≠ Raise e.
Proof.
  destruct (generate_task_id_least tasks) as (n & -> & _). done.
Qed.

(** Splits the ways a sequence of steps can raise, and closes those of
    steps that cannot. *)
Ltac raise_cases H :=
  repeat match type of H with
  | (_ ≫= _) _ = Raise _ => apply bind_Raise in H as [H|(? & ? & _ & H)]
  | (_ <$> _) _ = Raise _ => apply fmap_Raise in H
  | input_strip _ _ = Raise _ => by apply input_strip_Raise in H
  | while_input _ _ _ = Raise _ => by apply while_input_Raise in H
  | within_bound (generate_task_id _) _ = Raise _ =>
      by apply generate_task_id_within_bound in H
  | print _ _ = Raise _ => discriminate H
  | save_tasks _ _ _ = Raise _ => discriminate H
  | mret _ _ = Raise _ => discriminate H
  | match ?x with _ => _ end _ = Raise _ => destruct x
  | (let '(_, _) := ?x in _) _ = Raise _ => destruct x
  end.

(** An operation that does not return has met the end of the standard
    input: no loop of the model stops at its bound. *)
Lemma run_call_Raise c (tasks : list task) w e :
  run_call validate_date json_dump c tasks w = Raise e → e = EOFError.
Proof.
  destruct c; simpl; intros H.
  - unfold add_task in H. raise_cases H.
  - unfold update_task in H. raise_cases H.
  - unfold mark_completed in H. raise_cases H.
  - unfold delete_task in H. raise_cases H.
Qed.

Lemma run_calls_Raise calls (tasks : list task) w e :
  run_calls validate_date json_dump calls tasks w = Raise e → e = EOFError.
Proof.
  revert tasks w. induction calls as [|c calls IH]; intros tasks w; simpl; [done|].
  intros [H|(? & ? & _ & H)]%bind_Raise; [by eapply run_call_Raise|by eapply IH].
Qed.
End raises.

(** ** Statuses *)

Section valid_statuses.
Variable validate_date : string → bool.
Variable json_dump : json → string.
Implicit Types (tasks : list task) (w : world).

Lemma valid_statuses_insert tasks i t :
  status t ∈ STATUS_OPTIONS → valid_statuses tasks →
  valid_statuses (<[i := t]> tasks).
Proof. intros Ht Hvalid. by apply Forall_insert. Qed.

Lemma run_call_valid_statuses c tasks w tasks' w' :
  valid_statuses tasks →
  run_call validate_date json_dump c tasks w = Ok tasks' w' →
  valid_statuses tasks'.
Proof.
  intros Hvalid. destruct c; simpl.
  - intros (n & ? & ? & ? & ? & -> & _)%add_task_Ok.
    apply Forall_app. split; [done|]. apply Forall_singleton. simpl.
    by apply (bool_decide_unpack _).
  - intros (wanted & lines & _ & Hcase)%update_task_Ok.
    destruct (find_task wanted tasks) as [[i t]|] eqn:Hfind.
    + destruct Hcase as (t' & -> & _ & _ & Hstatus & _).
      apply valid_statuses_insert; [|done].
      destruct Hstatus as [->|]; [|done].
      apply find_task_Some in Hfind as (Hi & _).
      by apply (Forall_lookup_1 _ _ _ _ Hvalid Hi).
    + by destruct Hcase as [-> _].
  - destruct (stdin w) as [|wanted rest] eqn:Hin.
    { unfold mark_completed, mbind, io_bind, print, emit, input_strip. simpl.
      by rewrite Hin. }
    rewrite (mark_completed_run _ _ _ _ _ Hin).
    destruct (find_task wanted tasks) as [[i t]|] eqn:Hfind.
    + intros [= <- _]. apply valid_statuses_insert; [|done]. simpl.
      by apply (bool_decide_unpack _).
    + by intros [= <- _].
  - destruct (stdin w) as [|wanted rest] eqn:Hin.
    { unfold delete_task, mbind, io_bind, print, emit, input_strip. simpl.
      by rewrite Hin. }
    rewrite (delete_task_run _ _ _ _ _ Hin).
    destruct (find_task wanted tasks) as [[i t]|] eqn:Hfind.
    + intros [= <- _]. by apply Forall_delete.
    + by intros [= <- _].
Qed.

(** Whatever calls are made, a list whose statuses were all written by
    the program stays such a list. *)
Lemma run_calls_valid_statuses calls tasks w tasks' w' :
  valid_statuses tasks →
  run_calls validate_date json_dump calls tasks w = Ok tasks' w' →
  valid_statuses tasks'.
Proof.
  revert tasks w. induction calls as [|c calls IH]; intros tasks w Hvalid; simpl.
  - by intros [= <- _].
  - intros (tasks1 & w1 & Hcall & Hrest)%bind_Ok.
    eapply IH; [|done]. by eapply run_call_valid_statuses.
Qed.
End valid_statuses.

Lemma count_status_length s tasks :
  count_status s tasks = Z.of_nat (length (filter_status s tasks)).
Proof.
  unfold count_status. induction (filter_status s tasks) as [|t l IH]; [done|].
  rewrite fmap_cons, foldr_cons, IH, length_cons. lia.
Qed.

Lemma count_status_cons s t tasks :
  count_status s (t :: tasks)
  = (if decide (status t = s) then 1 else 0) + count_status s tasks.
Proof.
  unfold count_status, filter_status. rewrite filter_cons.
  by destruct (decide (status t = s)).
Qed.

Lemma summarize_adds_up tasks :
  valid_statuses tasks →
  total (summarize tasks) = pending (summarize tasks) + completed (summarize tasks).
Proof.
  unfold summarize. simpl. induction 1 as [|t tasks Hvalid _ IH]; [done|].
  rewrite !count_status_cons, length_cons, Nat2Z.inj_succ, IH.
  unfold STATUS_OPTIONS in Hvalid.
  apply elem_of_cons in Hvalid as [->|Hvalid]; [by simpl; lia|].
  apply list_elem_of_singleton in Hvalid as ->. simpl. lia.
Qed.

(** In a session that starts with no task, the numbers of every summary
    add up. *)
Lemma session_summary_adds_up (validate_date : string → bool)
    (json_dump : json → string) calls w tasks' w' :
  run_calls validate_date json_dump calls [] w = Ok tasks' w' →
  total (summarize tasks') = pending (summarize tasks') + completed (summarize tasks').
Proof.
  intros Hrun. apply summarize_adds_up.
  eapply run_calls_valid_statuses; [|done]. constructor.
Qed.

(** ** A session *)

(** Two tasks are added, the first is deleted, and the next task added
    takes the id "1" again; the due dates then put the task "1" first. *)
Example session_scenario :
  ∃ w',
    run_calls any_date no_text [Add; Add; Delete; Add] []
      (World ["Buy milk"; ""; "2024-01-05"; "low";
              "Pay bills"; ""; "2024-01-07"; "High";
              "1";
              "Call home"; "soon"; "2024-01-06"; "MEDIUM"] [] None)
    = Ok [Task "2" "Pay bills" "" "2024-01-07" "Pending" (Some "High");
          Task "1" "Call home" "soon" "2024-01-06" "Pending" (Some "Medium")] w'
    ∧ stdin w' = []
    ∧ sorted_tasks
        [Task "2" "Pay bills" "" "2024-01-07" "Pending" (Some "High");
         Task "1" "Call home" "soon" "2024-01-06" "Pending" (Some "Medium")]
      = [Task "1" "Call home" "soon" "2024-01-06" "Pending" (Some "Medium");
         Task "2" "Pay bills" "" "2024-01-07" "Pending" (Some "High")]
    ∧ summarize
        [Task "2" "Pay bills" "" "2024-01-07" "Pending" (Some "High");
         Task "1" "Call home" "soon" "2024-01-06" "Pending" (Some "Medium")]
      = Summary 2 2 0.
Proof. eexists. split_and!; [by vm_compute|done..]. Qed.

(** * The claims *)

(** ** Identifier generation *)

(** C1: for every collection of tasks [generate_task_id] returns, and the
    string it returns is the decimal rendering of the smallest positive
    integer whose rendering is not the id of a task of the collection;
    any larger loop bound gives the same result; for the ids "1" and "3"
    the result is "2"; two collections with the same set of ids get the
    same result. *)
Theorem generate_task_id_smallest_unused :
  (∀ tasks : list task,
      ∃ n, generate_task_id tasks = Some (str n)
           ∧ 0 < n
           ∧ (str n ∉ task_id <$> tasks)
           ∧ (∀ m, 0 < m < n → str m ∈ (task_id <$> tasks))
           ∧ (∀ fuel, (length tasks < fuel)%nat →
                generate_task_id_loop fuel (existing_ids_of tasks) 1 = Some n))
  ∧ generate_task_id [mk "1"; mk "3"] = Some "2"
  ∧ (∀ tasks1 tasks2 : list task,
      (∀ i, i ∈ (task_id <$> tasks1) ↔ i ∈ (task_id <$> tasks2)) →
      generate_task_id tasks1 = generate_task_id tasks2).
Proof.
  split_and!.
  - intros tasks. destruct (generate_task_id_least tasks) as (n & Hn & Hleast).
    exists n. pose proof Hleast as (Hpos & Hout & Hbelow).
    unfold existing_ids_of in Hout, Hbelow. split_and!; [done|done|..].
    + by rewrite elem_of_list_to_set in Hout.
    + intros m Hm. specialize (Hbelow m Hm). by rewrite elem_of_list_to_set in Hbelow.
    + intros fuel Hfuel.
      destruct (generate_task_id_loop_total fuel (existing_ids_of tasks))
        as (r & Hr & Hr').
      { pose proof (size_existing_ids tasks). lia. }
      by rewrite Hr, (least_unused_unique _ _ _ Hr' Hleast).
  - by vm_compute.
  - intros tasks1 tasks2 Hsame.
    assert (existing_ids_of tasks1 = existing_ids_of tasks2) as Hset.
    { apply set_eq. intros i. unfold existing_ids_of.
      by rewrite !elem_of_list_to_set. }
    destruct (generate_task_id_least tasks1) as (n1 & -> & H1).
    destruct (generate_task_id_least tasks2) as (n2 & -> & H2).
    rewrite Hset in H1. by rewrite (least_unused_unique _ _ _ H1 H2).
Qed.

Lemma generate_task_id_smallest_unused_witness :
  ∃ n, generate_task_id [mk "2"; mk "1"; mk "4"] = Some (str n) ∧ 0 < n.
Proof.
  destruct (proj1 generate_task_id_smallest_unused [mk "2"; mk "1"; mk "4"])
    as (n & Hn & Hpos & _).
  exists n. by split.
Defined.

(** ** Unique ids *)

(** C2: starting from a list whose ids are all distinct, whatever calls
    of [add_task], [update_task], [mark_completed] and [delete_task] are
    made, in any order, each call that returns leaves a list whose ids
    are all distinct; and after any number of [add_task] calls alone the
    tasks added have pairwise distinct ids, none of them the id of a
    task that was there before.  A call fails to return only when the
    standard input ends. *)
Theorem operations_preserve_unique_ids (validate_date : string → bool)
    (json_dump : json → string) :
  (∀ c tasks w e,
      run_call validate_date json_dump c tasks w = Raise e → e = EOFError)
  ∧ (∀ c tasks w tasks' w',
      unique_ids tasks →
      run_call validate_date json_dump c tasks w = Ok tasks' w' →
      unique_ids tasks')
  ∧ (∀ calls tasks w tasks' w',
      unique_ids tasks →
      run_calls validate_date json_dump calls tasks w = Ok tasks' w' →
      unique_ids tasks')
  ∧ (∀ n tasks w tasks' w',
      run_calls validate_date json_dump (replicate n Add) tasks w = Ok tasks' w' →
      ∃ added,
        tasks' = tasks ++ added ∧ length added = n
        ∧ NoDup (task_id <$> added)
        ∧ ∀ t, t ∈ added → task_id t ∉ task_id <$> tasks).
Proof.
  split_and!.
  - apply run_call_Raise.
  - apply run_call_unique_ids.
  - apply run_calls_unique_ids.
  - apply run_adds_fresh.
Qed.

Lemma operations_preserve_unique_ids_witness :
  unique_ids [Task "1" "" "" "2024-01-01" "Pending" (Some "High");
              Task "2" "Buy milk" "" "2024-01-05" "Pending" (Some "Low");
              Task "3" "Call home" "" "2024-02-01" "Pending" (Some "Medium")].
Proof.
  eapply (proj1 (proj2 (proj2 (operations_preserve_unique_ids any_date no_text)))
            [Add; Delete; Update; MarkCompleted; Add]
            [mk "1"; mk "3"]
            (World ["Buy milk"; ""; "2024-01-05"; "low";
                    "3";
                    "1"; ""; ""; ""; "high";
                    "9";
                    "Call home"; ""; "2024-02-01"; "none"; "medium"] [] None)).
  - by apply (bool_decide_unpack _); vm_compute.
  - vm_compute. reflexivity.
Defined.

(** ** Deleting *)

Lemma filter_not_elem_ids (P : task → Prop) `{!∀ t, Decision (P t)}
    (wanted : string) (tasks : list task) :
  (wanted ∉ task_id <$> tasks) → wanted ∉ task_id <$> filter P tasks.
Proof.
  intros Hout (t & Heq & Hin)%list_elem_of_fmap.
  apply list_elem_of_filter in Hin as [_ Hin].
  apply Hout, list_elem_of_fmap. eauto.
Qed.

Lemma unique_ids_gone wanted before t after :
  unique_ids (before ++ t :: after) → task_id t = wanted →
  wanted ∉ task_id <$> (before ++ after).
Proof.
  unfold unique_ids. rewrite !fmap_app, fmap_cons. intros Hnd <-.
  apply NoDup_app in Hnd as (_ & Hdisj & Hnd). apply NoDup_cons in Hnd as [Hout _].
  intros [Hin|Hin]%elem_of_app; [|done].
  apply (Hdisj _ Hin). by left.
Qed.

(** C3: [delete_task], given the id typed in, removes the first task
    with that id when there is one, saves the list and reports success;
    the list is then one shorter, so the total of the summary is one
    less, and, the ids being distinct, neither the search, nor a filter,
    nor the sort of the new list holds a task with that id.  When no task
    has the id it reports that the id was not found and changes neither
    the list nor the file. *)
Theorem delete_task_removes_first (json_dump : json → string)
    (tasks : list task) (w : world) (wanted : string) (rest : list string) :
  stdin w = wanted :: rest →
  (wanted ∈ task_id <$> tasks →
     ∃ before t after out,
       tasks = before ++ t :: after
       ∧ task_id t = wanted
       ∧ (wanted ∉ task_id <$> before)
       ∧ delete_task json_dump tasks w
         = Ok (before ++ after)
              (World rest (out ++ [Print "Task deleted successfully!"])
                 (saved json_dump (before ++ after)))
       ∧ total (summarize (before ++ after)) = total (summarize tasks) - 1
       ∧ (unique_ids tasks →
            ∀ (lower : string → string) keyword s pr,
              (wanted ∉ task_id <$> search lower keyword (before ++ after))
              ∧ (wanted ∉ task_id <$> filter_status s (before ++ after))
              ∧ (wanted ∉ task_id <$> filter_priority pr (before ++ after))
              ∧ (wanted ∉ task_id <$> sorted_tasks (before ++ after))))
  ∧ ((wanted ∉ task_id <$> tasks) →
     ∃ out,
       delete_task json_dump tasks w
       = Ok tasks (World rest (out ++ [Print "Task ID not found."]) (tasks_json w))).
Proof.
  intros Hin. rewrite (delete_task_run json_dump _ _ _ _ Hin). split.
  - intros (i & t & Hfind)%find_task_present. rewrite Hfind.
    apply find_task_split_ops in Hfind
      as (before & after & -> & _ & Hid & Hbefore & -> & _).
    exists before, t, after. eexists (stdout w ++ [_; _]).
    split_and!; [done|done|done| | |].
    + by rewrite <-app_assoc.
    + unfold summarize. simpl. rewrite !length_app. simpl. lia.
    + intros Hnd lower keyword s pr.
      pose proof (unique_ids_gone _ _ _ _ Hnd Hid) as Hgone.
      split_and!; [by apply filter_not_elem_ids..|].
      unfold sorted_tasks. by rewrite sorted_Permutation.
  - intros Hout%find_task_None. rewrite Hout.
    eexists (stdout w ++ [_; _]). by rewrite <-app_assoc.
Qed.

Lemma delete_task_removes_first_witness :
  ∃ tasks' w',
    delete_task no_text [mk "1"; mk "2"; mk "3"] (World ["2"; "x"] [] None)
    = Ok tasks' w'
    ∧ ("2" ∉ task_id <$> sorted_tasks tasks').
Proof.
  destruct (delete_task_removes_first no_text [mk "1"; mk "2"; mk "3"]
              (World ["2"; "x"] [] None) "2" ["x"] eq_refl) as [Hfound _].
  destruct Hfound as (before & t & after & out & _ & _ & _ & Hrun & _ & Hgone).
  - by apply (bool_decide_unpack _); vm_compute.
  - eexists _, _. split; [exact Hrun|].
    apply (Hgone ltac:(by apply (bool_decide_unpack _); vm_compute)
             lower_ascii "" "" "").
Defined.

(** ** Marking as completed *)

Lemma set_status_same s t : status t = s → set_status s t = t.
Proof. destruct t. simpl. by intros ->. Qed.

(** C4: for an id some task has, [mark_completed] returns, and in the
    list it returns the first task with that id has the status
    "Completed", whatever its status was; the list is saved.  Run a
    second time on the result with the same id it returns the very same
    list and leaves the very same file; and when the task was completed
    already the first run changes nothing in the list. *)
Theorem mark_completed_idempotent (json_dump : json → string)
    (tasks : list task) (w : world) (wanted : string) (rest : list string) :
  stdin w = wanted :: wanted :: rest →
  wanted ∈ task_id <$> tasks →
  ∃ i t tasks1 w1 w2,
    find_task wanted tasks = Some (i, t)
    ∧ mark_completed json_dump tasks w = Ok tasks1 w1
    ∧ tasks1 = <[i := set_status "Completed" t]> tasks
    ∧ find_task wanted tasks1 = Some (i, set_status "Completed" t)
    ∧ (∃ t', tasks1 !! i = Some t' ∧ find_task wanted tasks1 = Some (i, t')
             ∧ task_id t' = wanted ∧ status t' = "Completed")
    ∧ mark_completed json_dump tasks1 w1 = Ok tasks1 w2
    ∧ tasks_json w1 = saved json_dump tasks1
    ∧ tasks_json w2 = tasks_json w1
    ∧ stdin w2 = rest
    ∧ (status t = "Completed" → tasks1 = tasks).
Proof.
  intros Hin (i & t & Hfind)%find_task_present.
  pose proof (find_task_split_ops _ _ _ _ Hfind)
    as (before & after & Htasks & Hlen & Hid & Hbefore & _ & Hinsert).
  assert (find_task wanted (<[i := set_status "Completed" t]> tasks)
          = Some (i, set_status "Completed" t)) as Hfind1.
  { rewrite Hinsert, <-Hlen. by apply find_task_middle. }
  rewrite (mark_completed_run json_dump _ _ _ _ Hin), Hfind.
  eexists i, t, _, _, _. split_and!; [done|done|done|done| | |done| |..].
  - exists (set_status "Completed" t). split_and!; [|done|done|done].
    by apply find_task_Some in Hfind1 as (? & _).
  - erewrite mark_completed_run by done. rewrite Hfind1. cbv zeta.
    rewrite list_insert_insert_eq, set_status_same by done. reflexivity.
  - done.
  - done.
  - intros Hdone. rewrite set_status_same by done.
    apply list_insert_id. by apply find_task_Some in Hfind as (? & _).
Qed.

Lemma mark_completed_idempotent_witness :
  ∃ tasks1 w1 w2 t',
    mark_completed no_text [mk "1"; mk "2"] (World ["2"; "2"] [] None) = Ok tasks1 w1
    ∧ mark_completed no_text tasks1 w1 = Ok tasks1 w2
    ∧ tasks_json w2 = tasks_json w1
    ∧ tasks1 !! 1%nat = Some t' ∧ status t' = "Completed".
Proof.
  destruct (mark_completed_idempotent no_text [mk "1"; mk "2"]
              (World ["2"; "2"] [] None) "2" [] eq_refl)
    as (i & t & tasks1 & w1 & w2 & Hfind & Hrun1 & _ & _ & Hdone & Hrun2 & _
        & Hfile & _).
  - by apply (bool_decide_unpack _); vm_compute.
  - destruct Hdone as (t' & Hi & _ & _ & Hstatus).
    injection Hfind as <- _. by exists tasks1, w1, w2, t'.
Defined.

(** C10: for an id some task has, [mark_completed] returns a list of the
    same length in which every position holds the task it held before,
    except the position of the first task with that id, which holds that
    task with its status set to "Completed" and its id, title,
    description, due date and priority as they were. *)
Theorem mark_completed_frame (json_dump : json → string)
    (tasks : list task) (w : world) (wanted : string) (rest : list string) :
  stdin w = wanted :: rest →
  wanted ∈ task_id <$> tasks →
  ∃ i t tasks' w',
    mark_completed json_dump tasks w = Ok tasks' w'
    ∧ find_task wanted tasks = Some (i, t)
    ∧ length tasks' = length tasks
    ∧ (∀ j, j ≠ i → tasks' !! j = tasks !! j)
    ∧ (∃ t', tasks' !! i = Some t'
             ∧ status t' = "Completed"
             ∧ task_id t' = task_id t ∧ title t' = title t
             ∧ description t' = description t ∧ due_date t' = due_date t
             ∧ priority t' = priority t)
    ∧ task_id <$> tasks' = task_id <$> tasks.
Proof.
  intros Hin (i & t & Hfind)%find_task_present.
  rewrite (mark_completed_run json_dump _ _ _ _ Hin), Hfind.
  pose proof Hfind as (Hi & _)%find_task_Some.
  eexists i, t, _, _. split_and!; [done|done|..].
  - apply length_insert.
  - intros j Hj. by apply list_lookup_insert_ne.
  - exists (set_status "Completed" t). split_and!; try done.
    apply list_lookup_insert_eq. by eapply lookup_lt_Some.
  - rewrite list_fmap_insert. apply list_insert_id.
    by rewrite list_lookup_fmap, Hi.
Qed.

Lemma mark_completed_frame_witness :
  ∃ tasks' w',
    mark_completed no_text
      [mk "1"; Task "2" "Buy milk" "2%" "2024-01-05" "Pending" (Some "Low")]
      (World ["2"] [] None) = Ok tasks' w'
    ∧ tasks' !! 0%nat = Some (mk "1").
Proof.
  destruct (mark_completed_frame no_text
              [mk "1"; Task "2" "Buy milk" "2%" "2024-01-05" "Pending" (Some "Low")]
              (World ["2"] [] None) "2" [] eq_refl)
    as (i & t & tasks' & w' & Hrun & Hfind & _ & Hother & _).
  - by apply (bool_decide_unpack _); vm_compute.
  - exists tasks', w'. split; [done|]. injection Hfind as <- _.
    by rewrite Hother.
Defined.

(** ** Updating *)

(** C6: for an id some task has, [update_task] with a blank answer to
    each of the four questions returns the list exactly as it was (and
    saves it); no task is changed. *)
Theorem update_task_blank_identity (validate_date : string → bool)
    (json_dump : json → string)
    (tasks : list task) (w : world) (wanted : string) (rest : list string) :
  stdin w = wanted :: "" :: "" :: "" :: "" :: rest →
  wanted ∈ task_id <$> tasks →
  ∃ out,
    update_task validate_date json_dump tasks w
    = Ok tasks (World rest out (saved json_dump tasks)).
Proof.
  intros Hin (i & t & Hfind)%find_task_present.
  erewrite update_task_blank_run by done. eauto.
Qed.

Lemma update_task_blank_identity_witness :
  ∃ out,
    update_task any_date no_text
      [mk "1"; Task "2" "Buy milk" "2%" "2024-01-05" "Completed" None]
      (World ["2"; ""; ""; ""; ""; "x"] [] None)
    = Ok [mk "1"; Task "2" "Buy milk" "2%" "2024-01-05" "Completed" None]
         (World ["x"] out (Some "")).
Proof.
  apply (update_task_blank_identity any_date no_text
           [mk "1"; Task "2" "Buy milk" "2%" "2024-01-05" "Completed" None]
           (World ["2"; ""; ""; ""; ""; "x"] [] None) "2" ["x"] eq_refl).
  by apply (bool_decide_unpack _); vm_compute.
Defined.

(** ** Summary *)

(** C7: the summary of a list has as total the length of the list, as
    pending the number of its tasks whose status is "Pending", as
    completed the number of those whose status is "Completed";
    [task_summary] prints these three numbers and nothing else changes;
    and, every status being one of the two values of [STATUS_OPTIONS],
    the total is the sum of the other two. *)
Theorem task_summary_counts (tasks : list task) :
  total (summarize tasks) = Z.of_nat (length tasks)
  ∧ pending (summarize tasks)
    = Z.of_nat (length (filter (λ t, status t = "Pending") tasks))
  ∧ completed (summarize tasks)
    = Z.of_nat (length (filter (λ t, status t = "Completed") tasks))
  ∧ (∀ w, task_summary tasks w
          = Ok () (World (stdin w)
                     (stdout w ++
                        [Print (LF +:+ "--- Task Summary ---");
                         Print ("Total tasks: " +:+ str (total (summarize tasks)));
                         Print ("Pending tasks: " +:+ str (pending (summarize tasks)));
                         Print ("Completed tasks: "
                                +:+ str (completed (summarize tasks)))])
                     (tasks_json w)))
  ∧ (valid_statuses tasks →
     total (summarize tasks)
     = pending (summarize tasks) + completed (summarize tasks)).
Proof.
  split_and!.
  - done.
  - apply count_status_length.
  - apply count_status_length.
  - intros w. unfold task_summary, mbind, io_bind, print, emit. simpl.
    by rewrite <-!app_assoc.
  - apply summarize_adds_up.
Qed.

Lemma task_summary_counts_witness :
  summarize [mk "1"; Task "2" "Buy milk" "" "2024-01-05" "Completed" None; mk "3"]
  = Summary 3 2 1.
Proof.
  pose proof (task_summary_counts
    [mk "1"; Task "2" "Buy milk" "" "2024-01-05" "Completed" None; mk "3"])
    as (Htotal & Hpending & Hcompleted & _ & Hsum).
  assert (valid_statuses
            [mk "1"; Task "2" "Buy milk" "" "2024-01-05" "Completed" None; mk "3"])
    as Hvalid by (by apply (bool_decide_unpack _); vm_compute).
  specialize (Hsum Hvalid).
  destruct (summarize _) as [a b c]. simpl in *.
  rewrite Hsum, Hpending, Hcompleted. reflexivity.
Defined.

(** A status outside [STATUS_OPTIONS], which only a file written by
    other means can hold, is counted in the total alone. *)
Example task_summary_other_status :
  summarize [Task "1" "" "" "2024-01-01" "Done" None] = Summary 1 0 0.
Proof. reflexivity. Qed.

(** ** Filtering by priority *)

Lemma get_priority_has_priority p t : get_priority t = p ↔ has_priority p t.
Proof.
  unfold get_priority, has_priority. destruct (priority t); simpl; [done|].
  split; by intros ->.
Qed.

(** C8: for each of the three priorities, typed in any mix of upper and
    lower case, [filter_tasks] with choice '3' shows exactly the tasks
    of that priority, in their order in the list, a task without
    priority counting as "Medium"; so every task without priority is
    among those shown for "Medium". *)
Theorem filter_tasks_by_priority (tasks : list task) (p : string) :
  p ∈ PRIORITY_LEVELS →
  filter_priority p tasks = filter (has_priority p) tasks
  ∧ (∀ t, t ∈ filter_priority p tasks ↔ t ∈ tasks ∧ has_priority p t)
  ∧ (∀ t, t ∈ tasks → priority t = None → t ∈ filter_priority "Medium" tasks)
  ∧ (∀ w line rest,
       stdin w = "3" :: line :: rest → capitalize line = p →
       ∃ out,
         filter_tasks tasks w
         = print_table (filter_priority p tasks) (World rest out (tasks_json w))).
Proof.
  intros Hp.
  assert (filter_priority p tasks = filter (has_priority p) tasks) as Heq.
  { apply list_filter_iff. intros t. apply get_priority_has_priority. }
  split_and!; [done| | |].
  - intros t. rewrite Heq, list_elem_of_filter. tauto.
  - intros t Hin Hnone. apply list_elem_of_filter. split; [|done].
    unfold get_priority. by rewrite Hnone.
  - intros w line rest Hin <-.
    rewrite (filter_tasks_priority_run tasks w line rest Hin Hp). eauto.
Qed.

Lemma filter_tasks_by_priority_witness :
  filter_priority "Medium"
    [Task "1" "Pay bills" "" "2024-01-01" "Pending" (Some "High");
     mk "2"; Task "3" "Call home" "" "2024-02-01" "Pending" (Some "Medium")]
  = [mk "2"; Task "3" "Call home" "" "2024-02-01" "Pending" (Some "Medium")].
Proof.
  destruct (filter_tasks_by_priority
              [Task "1" "Pay bills" "" "2024-01-01" "Pending" (Some "High");
               mk "2"; Task "3" "Call home" "" "2024-02-01" "Pending" (Some "Medium")]
              "Medium") as (-> & _).
  - by apply (bool_decide_unpack _); vm_compute.
  - reflexivity.
Defined.

(** ** Sorting by due date *)

(** C5: [sort_tasks] shows a list that holds the tasks of the given
    list, each as often, in non-decreasing order of their due dates as
    strings; tasks with the same due date keep the order they had; and
    sorting the sorted list gives it back unchanged. *)
Theorem sort_tasks_stable_sorted (tasks : list task) :
  (∀ w, sort_tasks tasks w
        = print_table (sorted_tasks tasks)
            (World (stdin w)
               (stdout w ++ [Print (LF +:+ "--- Sort Tasks by Due Date ---")])
               (tasks_json w)))
  ∧ sorted_tasks tasks ≡ₚ tasks
  ∧ StronglySorted (λ a b, String.le (due_date a) (due_date b)) (sorted_tasks tasks)
  ∧ (∀ d, filter (λ t, due_date t = d) (sorted_tasks tasks)
          = filter (λ t, due_date t = d) tasks)
  ∧ sorted_tasks (sorted_tasks tasks) = sorted_tasks tasks.
Proof.
  split_and!.
  - done.
  - apply sorted_Permutation.
  - apply sorted_StronglySorted.
  - intros d. apply sorted_filter_key.
  - apply sorted_idemp.
Qed.

Example sort_tasks_scenario :
  sorted_tasks [Task "1" "Buy milk" "" "2024-01-05" "Pending" (Some "Low");
                Task "2" "Pay bills" "" "2024-01-01" "Pending" (Some "High");
                Task "3" "Call home" "" "2024-01-05" "Pending" (Some "Medium")]
  = [Task "2" "Pay bills" "" "2024-01-01" "Pending" (Some "High");
     Task "1" "Buy milk" "" "2024-01-05" "Pending" (Some "Low");
     Task "3" "Call home" "" "2024-01-05" "Pending" (Some "Medium")].
Proof. reflexivity. Qed.

(** ** Loading *)

(** C9, as amended: [load_tasks] returns the empty list, with the
    console and the file as they were, when [tasks.json] does not exist
    and when [json.load] raises [JSONDecodeError] on its content; an
    exception of any other class that [json.load] raises leaves
    [load_tasks] uncaught; otherwise [load_tasks] returns the value
    [json.load] built, whatever its shape. *)
Theorem load_tasks_recovers (json_load : string → loaded) (w : world) :
  (tasks_json w = None → load_tasks json_load w = Ok (JList []) w)
  ∧ (∀ text, tasks_json w = Some text → json_load text = JSONDecodeError →
       load_tasks json_load w = Ok (JList []) w)
  ∧ (∀ text name, tasks_json w = Some text → json_load text = OtherError name →
       load_tasks json_load w = Raise (Uncaught name))
  ∧ (∀ text value, tasks_json w = Some text → json_load text = Loaded value →
       load_tasks json_load w = Ok value w).
Proof.
  unfold load_tasks. split_and!.
  - by intros ->.
  - by intros text -> ->.
  - by intros text name -> ->.
  - by intros text value -> ->.
Qed.

Lemma load_tasks_recovers_witness :
  load_tasks only_empty_list (World ["1"] [] (Some "{'id': "))
  = Ok (JList []) (World ["1"] [] (Some "{'id': ")).
Proof.
  apply (proj1 (proj2 (load_tasks_recovers only_empty_list
                         (World ["1"] [] (Some "{'id': ")))) "{'id': ").
  - reflexivity.
  - reflexivity.
Defined.

(** C9, as stated, fails twice on files whose text is well-formed JSON.
    The text [null] is the dump of no list, yet [json.load] raises
    nothing and [load_tasks] returns the value it built, [None], not an
    empty list.  On a text nested too deep [json.load] raises
    [RecursionError], which is no [JSONDecodeError], and [load_tasks]
    lets it through to its caller. *)
Lemma load_tasks_returns_non_collection :
  (∀ tasks, only_null "null" ≠ Loaded (tasks_to_json tasks))
  ∧ load_tasks only_null (World [] [] (Some "null"))
    = Ok JNull (World [] [] (Some "null"))
  ∧ load_tasks only_null (World [] [] (Some "null"))
    ≠ Ok (JList []) (World [] [] (Some "null"))
  ∧ load_tasks only_too_deep (World [] [] (Some (nested_lists 100000)))
    = Raise (Uncaught "RecursionError").
Proof.
  split_and!; [done|done|done|].
  unfold load_tasks. cbn [tasks_json]. unfold only_too_deep.
  by rewrite decide_True by reflexivity.
Qed.

(** * Further properties of the program *)

(** ** What a run leaves of the world *)

Section keeps.
Context (R : relation world) `{!PreOrder R}.
Hypothesis R_emit : ∀ w o, R w (World (stdin w) (stdout w ++ [o]) (tasks_json w)).
Hypothesis R_input : ∀ line lines out o file,
  R (World (line :: lines) out file) (World lines (out ++ [o]) file).

Lemma keeps_ret {A} (a : A) : keeps R (mret a).
Proof. intros w a' w' [= _ <-]. reflexivity. Qed.

Lemma keeps_bind {A B} (m : io A) (f : A → io B) :
  keeps R m → (∀ a, keeps R (f a)) → keeps R (m ≫= f).
Proof.
  intros Hm Hf w b w' (a & w1 & H1 & H2)%bind_Ok.
  etrans; [by eapply Hm|by eapply Hf].
Qed.

Lemma keeps_fmap {A B} (g : A → B) (m : io A) : keeps R m → keeps R (g <$> m).
Proof. intros Hm w b w' (a & H1 & _)%fmap_Ok. by eapply Hm. Qed.

Lemma keeps_emit o : keeps R (emit o).
Proof. intros w a w' [= _ <-]. apply R_emit. Qed.

Lemma keeps_print s : keeps R (print s).
Proof. apply keeps_emit. Qed.

Lemma keeps_input_strip prompt : keeps R (input_strip prompt).
Proof.
  intros [lines out file] a w'. unfold input_strip. simpl.
  destruct lines as [|line lines]; [done|]. intros [= _ <-]. apply R_input.
Qed.

Lemma keeps_while_input {A} prompt (body : string → A + string) :
  keeps R (while_input prompt body).
Proof.
  intros [lines out file] a w'. unfold while_input. simpl. revert out.
  induction lines as [|line lines IH]; intros out; simpl; [done|].
  destruct (body line) as [a'|complaint].
  - intros [= _ <-]. apply R_input.
  - intros Hloop. etrans; [apply (R_input line lines out (Prompt prompt) file)|].
    etrans; [|by apply IH].
    apply (R_emit (World lines (out ++ [Prompt prompt]) file)).
Qed.

Lemma keeps_within_bound {A} (r : option A) : keeps R (within_bound r).
Proof. intros w a w'. destruct r; [|done]. intros [= _ <-]. reflexivity. Qed.

Lemma keeps_print_table tasks : keeps R (print_table tasks).
Proof. destruct tasks; apply keeps_emit. Qed.

Lemma keeps_print_lines lines : keeps R (print_lines lines).
Proof.
  induction lines; simpl; [apply keeps_ret|].
  apply keeps_bind; [apply keeps_print|done].
Qed.

(** The five operations that only show tasks, and the export. *)
Lemma keeps_view_tasks tasks : keeps R (view_tasks tasks).
Proof. apply keeps_bind; [apply keeps_print|intros; apply keeps_print_table]. Qed.

Lemma keeps_search_tasks lower tasks : keeps R (search_tasks lower tasks).
Proof.
  apply keeps_bind; [apply keeps_print|intros _].
  apply keeps_bind; [apply keeps_fmap, keeps_input_strip|intros].
  apply keeps_print_table.
Qed.

Lemma keeps_filter_tasks tasks : keeps R (filter_tasks tasks).
Proof.
  unfold filter_tasks.
  repeat (apply keeps_bind; [apply keeps_print|intros _]).
  apply keeps_bind; [apply keeps_input_strip|intros choice].
  repeat case_decide; try apply keeps_print_table; try apply keeps_print.
  apply keeps_bind; [apply keeps_fmap, keeps_input_strip|intros pr].
  destruct (is_in pr PRIORITY_LEVELS); [apply keeps_print_table|apply keeps_print].
Qed.

Lemma keeps_task_summary tasks : keeps R (task_summary tasks).
Proof.
  unfold task_summary. cbv zeta.
  repeat (apply keeps_bind; [apply keeps_print|intros _]). apply keeps_print.
Qed.

Lemma keeps_sort_tasks tasks : keeps R (sort_tasks tasks).
Proof. apply keeps_bind; [apply keeps_print|intros; apply keeps_print_table]. Qed.

Lemma keeps_export_to_csv tasks : keeps R (export_to_csv tasks).
Proof. apply keeps_bind; [apply keeps_print|intros; apply keeps_ret]. Qed.

(** The four operations that save, for a relation that allows saving. *)
Hypothesis R_save : ∀ w file, R w (World (stdin w) (stdout w) file).

Lemma keeps_save_tasks json_dump tasks : keeps R (save_tasks json_dump tasks).
Proof. intros w a w' [= _ <-]. apply R_save. Qed.

Lemma keeps_run_call validate_date json_dump c tasks :
  keeps R (run_call validate_date json_dump c tasks).
Proof.
  destruct c; simpl.
  - unfold add_task.
    apply keeps_bind; [apply keeps_print|intros _].
    do 2 (apply keeps_bind; [apply keeps_input_strip|intros ?]).
    do 2 (apply keeps_bind; [apply keeps_while_input|intros ?]).
    apply keeps_bind; [apply keeps_within_bound|intros ?]. cbv zeta.
    apply keeps_bind; [apply keeps_save_tasks|intros _].
    apply keeps_bind; [apply keeps_print|intros _]. apply keeps_ret.
  - unfold update_task.
    apply keeps_bind; [apply keeps_print|intros _].
    apply keeps_bind; [apply keeps_input_strip|intros wanted].
    destruct (find_task wanted tasks) as [[i t]|].
    + apply keeps_bind; [apply keeps_print|intros _].
      apply keeps_bind; [apply keeps_input_strip|intros ?]. cbv zeta.
      apply keeps_bind; [apply keeps_print|intros _].
      apply keeps_bind; [apply keeps_while_input|intros ?].
      apply keeps_bind; [apply keeps_print|intros _].
      apply keeps_bind; [apply keeps_fmap, keeps_input_strip|intros ?]. cbv zeta.
      apply keeps_bind; [apply keeps_print|intros _].
      apply keeps_bind; [apply keeps_fmap, keeps_input_strip|intros ?]. cbv zeta.
      apply keeps_bind; [apply keeps_save_tasks|intros _].
      apply keeps_bind; [apply keeps_print|intros _]. apply keeps_ret.
    + apply keeps_bind; [apply keeps_print|intros _]. apply keeps_ret.
  - unfold mark_completed.
    apply keeps_bind; [apply keeps_print|intros _].
    apply keeps_bind; [apply keeps_input_strip|intros wanted].
    destruct (find_task wanted tasks) as [[i t]|]; cbv zeta.
    + apply keeps_bind; [apply keeps_save_tasks|intros _].
      apply keeps_bind; [apply keeps_print|intros _]. apply keeps_ret.
    + apply keeps_bind; [apply keeps_print|intros _]. apply keeps_ret.
  - unfold delete_task.
    apply keeps_bind; [apply keeps_print|intros _].
    apply keeps_bind; [apply keeps_input_strip|intros wanted].
    destruct (find_task wanted tasks) as [[i t]|]; cbv zeta.
    + apply keeps_bind; [apply keeps_save_tasks|intros _].
      apply keeps_bind; [apply keeps_print|intros _]. apply keeps_ret.
    + apply keeps_bind; [apply keeps_print|intros _]. apply keeps_ret.
Qed.
End keeps.

Global Instance console_step_preorder : PreOrder console_step.
Proof.
  split.
  - intros w. split_and!; [done|by exists []|exists []; by rewrite app_nil_r].
  - intros w1 w2 w3 (Hf1 & [u1 Hu1] & [s1 Hs1]) (Hf2 & [u2 Hu2] & [s2 Hs2]).
    split_and!; [congruence| |].
    + exists (u1 ++ u2). by rewrite Hu1, Hu2, app_assoc.
    + exists (s1 ++ s2). by rewrite Hs2, Hs1, app_assoc.
Qed.

Global Instance reads_on_preorder : PreOrder reads_on.
Proof.
  split.
  - intros w. by exists [].
  - intros w1 w2 w3 [u1 Hu1] [u2 Hu2].
    exists (u1 ++ u2). by rewrite Hu1, Hu2, app_assoc.
Qed.

Lemma console_step_emit w o :
  console_step w (World (stdin w) (stdout w ++ [o]) (tasks_json w)).
Proof. split_and!; [done|by exists []|by exists [o]]. Qed.

Lemma console_step_input line lines out o file :
  console_step (World (line :: lines) out file) (World lines (out ++ [o]) file).
Proof. split_and!; [done|by exists [line]|by exists [o]]. Qed.

Lemma reads_on_emit w o : reads_on w (World (stdin w) (stdout w ++ [o]) (tasks_json w)).
Proof. by exists []. Qed.

Lemma reads_on_input line lines out o file :
  reads_on (World (line :: lines) out file) (World lines (out ++ [o]) file).
Proof. by exists [line]. Qed.

Lemma reads_on_save w file : reads_on w (World (stdin w) (stdout w) file).
Proof. by exists []. Qed.

Lemma reads_on_length w w' : reads_on w w' → (length (stdin w') ≤ length (stdin w))%nat.
Proof. intros [used ->]. rewrite length_app. lia. Qed.

Lemma console_step_reads_on w w' : console_step w w' → reads_on w w'.
Proof. by intros (_ & ? & _). Qed.

(** ** Which exceptions a run can raise *)

Lemma roe_ret {A} (a : A) : raises_only_eof (mret a).
Proof. by intros w e. Qed.

Lemma roe_bind {A B} (m : io A) (f : A → io B) :
  raises_only_eof m → (∀ a, raises_only_eof (f a)) → raises_only_eof (m ≫= f).
Proof.
  intros Hm Hf w e [H|(a & w1 & _ & H)]%bind_Raise; [by eapply Hm|by eapply Hf].
Qed.

Lemma roe_fmap {A B} (g : A → B) (m : io A) :
  raises_only_eof m → raises_only_eof (g <$> m).
Proof. intros Hm w e H%fmap_Raise. by eapply Hm. Qed.

Lemma roe_print s : raises_only_eof (print s).
Proof. by intros w e. Qed.

Lemma roe_input_strip prompt : raises_only_eof (input_strip prompt).
Proof. intros w e. apply input_strip_Raise. Qed.

Lemma roe_print_table tasks : raises_only_eof (print_table tasks).
Proof. by destruct tasks; intros w e. Qed.

Lemma roe_print_lines lines : raises_only_eof (print_lines lines).
Proof.
  induction lines; simpl; [apply roe_ret|].
  apply roe_bind; [apply roe_print|done].
Qed.

Lemma roe_view_tasks tasks : raises_only_eof (view_tasks tasks).
Proof. apply roe_bind; [apply roe_print|intros; apply roe_print_table]. Qed.

Lemma roe_search_tasks lower tasks : raises_only_eof (search_tasks lower tasks).
Proof.
  apply roe_bind; [apply roe_print|intros _].
  apply roe_bind; [apply roe_fmap, roe_input_strip|intros].
  apply roe_print_table.
Qed.

Lemma roe_filter_tasks tasks : raises_only_eof (filter_tasks tasks).
Proof.
  unfold filter_tasks.
  repeat (apply roe_bind; [apply roe_print|intros _]).
  apply roe_bind; [apply roe_input_strip|intros choice].
  repeat case_decide; try apply roe_print_table; try apply roe_print.
  apply roe_bind; [apply roe_fmap, roe_input_strip|intros pr].
  destruct (is_in pr PRIORITY_LEVELS); [apply roe_print_table|apply roe_print].
Qed.

Lemma roe_task_summary tasks : raises_only_eof (task_summary tasks).
Proof.
  unfold task_summary. cbv zeta.
  repeat (apply roe_bind; [apply roe_print|intros _]). apply roe_print.
Qed.

Lemma roe_sort_tasks tasks : raises_only_eof (sort_tasks tasks).
Proof. apply roe_bind; [apply roe_print|intros; apply roe_print_table]. Qed.

Lemma roe_export_to_csv tasks : raises_only_eof (export_to_csv tasks).
Proof. apply roe_bind; [apply roe_print|intros; apply roe_ret]. Qed.

(** ** The menu loop *)

Section menu.
Variable validate_date : string → bool.
Variable json_dump : json → string.
Variable lower : string → string.
Implicit Types (tasks : list task) (w : world).

Lemma roe_menu_round tasks : raises_only_eof (menu_round validate_date json_dump lower tasks).
Proof.
  unfold menu_round.
  apply roe_bind; [apply roe_print_lines|intros _].
  apply roe_bind; [apply roe_input_strip|intros choice].
  repeat case_decide;
    try (apply roe_fmap; intros w e;
         first [apply (run_call_Raise validate_date json_dump Add)
               |apply (run_call_Raise validate_date json_dump Update)
               |apply (run_call_Raise validate_date json_dump MarkCompleted)
               |apply (run_call_Raise validate_date json_dump Delete)]);
    (apply roe_bind; [|intros; apply roe_ret]);
    eauto using roe_view_tasks, roe_search_tasks, roe_filter_tasks,
      roe_task_summary, roe_sort_tasks, roe_export_to_csv, roe_print.
Qed.

(** A round reads at least the choice. *)
Lemma menu_round_reads tasks w c w' :
  menu_round validate_date json_dump lower tasks w = Ok c w' →
  (length (stdin w') < length (stdin w))%nat.
Proof.
  unfold menu_round. intros (_u & w0 & Hmenu & H)%bind_Ok.
  apply (keeps_print_lines reads_on reads_on_emit) in Hmenu.
  apply reads_on_length in Hmenu.
  apply bind_Ok in H as (choice & w1 & Hchoice & H).
  apply input_strip_Ok in Hchoice as [Hchoice _].
  assert (reads_on w1 w') as Hrest%reads_on_length.
  { repeat case_decide;
      try (apply fmap_Ok in H as (? & H & _);
           first [by apply (keeps_run_call reads_on reads_on_emit reads_on_input
                              reads_on_save validate_date json_dump Add) in H
                 |by apply (keeps_run_call reads_on reads_on_emit reads_on_input
                              reads_on_save validate_date json_dump Update) in H
                 |by apply (keeps_run_call reads_on reads_on_emit reads_on_input
                              reads_on_save validate_date json_dump MarkCompleted) in H
                 |by apply (keeps_run_call reads_on reads_on_emit reads_on_input
                              reads_on_save validate_date json_dump Delete) in H]);
      apply bind_Ok in H as (? & w2 & H & [= _ <-]);
      first [by apply (keeps_view_tasks reads_on reads_on_emit) in H
            |by apply (keeps_search_tasks reads_on reads_on_emit reads_on_input) in H
            |by apply (keeps_filter_tasks reads_on reads_on_emit reads_on_input) in H
            |by apply (keeps_task_summary reads_on reads_on_emit) in H
            |by apply (keeps_sort_tasks reads_on reads_on_emit) in H
            |by apply (keeps_export_to_csv reads_on reads_on_emit) in H
            |by apply (keeps_print reads_on reads_on_emit) in H]. }
  rewrite Hchoice in Hmenu. simpl in Hmenu. lia.
Qed.
Lemma main_loop_Raise fuel tasks w e :
  (length (stdin w) < fuel)%nat →
  main_loop validate_date json_dump lower fuel tasks w = Raise e → e = EOFError.
Proof.
  revert tasks w. induction fuel as [|fuel IH]; intros tasks w Hfuel; [lia|].
  simpl. intros [H|(c & w1 & Hround & H)]%bind_Raise.
  - by apply roe_menu_round in H.
  - apply menu_round_reads in Hround. destruct c as [tasks1|tasks1]; [|done].
    eapply IH; [|done]. lia.
Qed.

Lemma main_loop_fuel fuel fuel' tasks w :
  (length (stdin w) < fuel)%nat → (length (stdin w) < fuel')%nat →
  main_loop validate_date json_dump lower fuel tasks w
  = main_loop validate_date json_dump lower fuel' tasks w.
Proof.
  revert fuel' tasks w.
  induction fuel as [|fuel IH]; intros [|fuel'] tasks w Hfuel Hfuel'; try lia.
  simpl. unfold mbind, io_bind.
  destruct (menu_round validate_date json_dump lower tasks w) as [c w1|e] eqn:Hround;
    [|done].
  apply menu_round_reads in Hround. destruct c as [tasks1|tasks1]; [|done].
  apply IH; lia.
Qed.

(** A property of the list and the world that the four operations that
    change the list keep, and that talking to the console keeps, holds
    when the loop is left if it held when the loop was entered. *)
Lemma main_loop_invariant (I : list task → world → Prop) fuel tasks w tasks' w' :
  (∀ c tasks w tasks' w',
      I tasks w → run_call validate_date json_dump c tasks w = Ok tasks' w' →
      I tasks' w') →
  (∀ tasks w w', I tasks w → console_step w w' → I tasks w') →
  I tasks w →
  main_loop validate_date json_dump lower fuel tasks w = Ok tasks' w' →
  I tasks' w'.
Proof.
  intros Hcall Hconsole. revert tasks w.
  induction fuel as [|fuel IH]; intros tasks w HI; [done|].
  simpl. intros (c & w1 & Hround & H)%bind_Ok.
  assert (match c with Continue t | Break t => I t w1 end) as HI1.
  { clear H IH. unfold menu_round in Hround.
    apply bind_Ok in Hround as (_u & w0 & Hmenu & Hround).
    apply (keeps_print_lines console_step console_step_emit) in Hmenu.
    apply bind_Ok in Hround as (choice & w2 & Hchoice & Hround).
    apply (keeps_input_strip console_step console_step_input) in Hchoice.
    assert (I tasks w2) as HI2 by eauto.
    repeat case_decide;
      try (apply fmap_Ok in Hround as (? & Hround & ->);
           first [by apply (Hcall Add _ _ _ _ HI2)
                 |by apply (Hcall Update _ _ _ _ HI2)
                 |by apply (Hcall MarkCompleted _ _ _ _ HI2)
                 |by apply (Hcall Delete _ _ _ _ HI2)]);
      apply bind_Ok in Hround as (? & w3 & Hround & [= <- <-]);
      apply (Hconsole _ _ _ HI2);
      first [by apply (keeps_view_tasks console_step console_step_emit) in Hround
            |by apply (keeps_search_tasks console_step console_step_emit
                         console_step_input) in Hround
            |by apply (keeps_filter_tasks console_step console_step_emit
                         console_step_input) in Hround
            |by apply (keeps_task_summary console_step console_step_emit) in Hround
            |by apply (keeps_sort_tasks console_step console_step_emit) in Hround
            |by apply (keeps_export_to_csv console_step console_step_emit) in Hround
            |by apply (keeps_print console_step console_step_emit) in Hround]. }
  destruct c as [tasks1|tasks1].
  - by eapply IH.
  - by injection H as <- <-.
Qed.
End menu.

(** ** Adding a task *)

Lemma input_loop_asks_again {A} prompt complaint (body : string → A + string)
    rejected line rest out file a :
  Forall (λ l, body l = inr complaint) rejected →
  body line = inl a →
  input_loop prompt body (rejected ++ line :: rest) out file
  = Ok a (World rest (out ++ asked_again prompt complaint rejected ++ [Prompt prompt])
            file).
Proof.
  intros Hrej Hline. revert out.
  induction Hrej as [|l rejected Hl _ IH]; intros out; simpl.
  - by rewrite Hline.
  - rewrite Hl, IH. unfold asked_again. simpl. by rewrite <-!app_assoc.
Qed.

Section add_task.
Variable validate_date : string → bool.
Variable json_dump : json → string.
Implicit Types (tasks : list task) (w : world).

(** The answers [add_task] reads: a title, a description, dates until
    one is accepted, priorities until one is accepted. *)
Lemma add_task_Ok_answers tasks w tasks' w' :
  add_task validate_date json_dump tasks w = Ok tasks' w' →
  ∃ new_title new_description bad_dates new_due_date bad_priorities line,
    stdin w = new_title :: new_description
                :: bad_dates ++ new_due_date :: bad_priorities ++ line :: stdin w'
    ∧ Forall (λ d, validate_date d = false) bad_dates
    ∧ validate_date new_due_date = true
    ∧ Forall (λ l, capitalize l ∉ PRIORITY_LEVELS) bad_priorities
    ∧ capitalize line ∈ PRIORITY_LEVELS.
Proof.
  unfold add_task. intros Hrun. inv_io Hrun. injection Hrun as _ <-.
  repeat match goal with
  | H : print _ _ = Ok _ _ |- _ => apply emit_Ok in H as (? & _ & _)
  | H : save_tasks _ _ _ = Ok _ _ |- _ => injection H as _ <-
  | H : within_bound _ _ = Ok _ _ |- _ =>
      unfold within_bound in H; destruct (generate_task_id tasks); [|done];
      injection H as _ <-
  | H : input_strip _ _ = Ok _ _ |- _ => apply input_strip_Ok in H as (? & _)
  | H : while_input _ _ _ = Ok _ _ |- _ =>
      apply input_loop_Ok in H as (? & ? & ? & ? & ? & _)
  end.
  simpl in *.
  match goal with
  | Hd : (if validate_date ?d then _ else _) = inl _,
    Hp : (if is_in (capitalize ?l) _ then _ else _) = inl _,
    Hbd : Forall _ ?bd, Hbp : Forall _ ?bp |- _ =>
      exists x1, x3, bd, d, bp, l
  end.
  split_and!.
  - congruence.
  - eapply Forall_impl; [done|]. intros d [complaint Hd]. simpl in Hd.
    by destruct (validate_date d).
  - match goal with Hd : (if validate_date ?d then _ else _) = inl _ |- _ =>
      by destruct (validate_date d) end.
  - eapply Forall_impl; [done|]. intros l [complaint Hl]. simpl in Hl.
    unfold is_in in Hl. by case_bool_decide.
  - match goal with Hp : (if is_in _ _ then _ else _) = inl _ |- _ =>
      unfold is_in in Hp; by case_bool_decide end.
Qed.
End add_task.

(** X1: [add_task] asks for the due date again after each date
    [validate_date] rejects, and for the priority again after each
    answer whose capitalized form is not one of the three levels, with a
    complaint each time; at the first date and priority accepted it
    appends one task with the smallest unused id, the title and the
    description as typed, that date, the status "Pending" and the
    capitalized priority, saves the list and reports success. *)
Theorem add_task_asks_until_accepted (validate_date : string → bool)
    (json_dump : json → string) (tasks : list task) (w : world)
    (new_title new_description : string) (bad_dates : list string)
    (new_due_date : string) (bad_priorities : list string) (line : string)
    (rest : list string) :
  stdin w = new_title :: new_description
              :: bad_dates ++ new_due_date :: bad_priorities ++ line :: rest →
  Forall (λ d, validate_date d = false) bad_dates →
  validate_date new_due_date = true →
  Forall (λ l, capitalize l ∉ PRIORITY_LEVELS) bad_priorities →
  capitalize line ∈ PRIORITY_LEVELS →
  ∃ n,
    least_unused (existing_ids_of tasks) n ∧
    add_task validate_date json_dump tasks w
    = Ok (tasks ++ [Task (str n) new_title new_description new_due_date
                         "Pending" (Some (capitalize line))])
         (World rest
            (stdout w
             ++ [Print (LF +:+ "--- Add New Task ---"); Prompt "Enter task title: ";
                 Prompt "Enter description: "]
             ++ asked_again "Enter due date (%Y-%m-%d): "
                  "Invalid date format. Please use YYYY-MM-DD." bad_dates
             ++ [Prompt "Enter due date (%Y-%m-%d): "]
             ++ asked_again "Enter priority (Low/Medium/High): "
                  "Invalid priority. Choose from Low, Medium, High." bad_priorities
             ++ [Prompt "Enter priority (Low/Medium/High): ";
                 Print "Task added successfully!"])
            (saved json_dump
               (tasks ++ [Task (str n) new_title new_description new_due_date
                               "Pending" (Some (capitalize line))]))).
Proof.
  destruct w as [lines out file]. simpl.
  intros -> Hbad_dates Hdate Hbad_priorities Hline.
  destruct (generate_task_id_least tasks) as (n & Hn & Hleast).
  exists n. split; [done|].
  unfold add_task, mbind, io_bind, print, emit, input_strip, while_input. simpl.
  erewrite (input_loop_asks_again _ "Invalid date format. Please use YYYY-MM-DD.");
    [|by eapply Forall_impl; [done|]; intros d ->|by rewrite Hdate].
  simpl.
  erewrite (input_loop_asks_again _ "Invalid priority. Choose from Low, Medium, High.");
    [|eapply Forall_impl; [done|]; intros l Hl; simpl; unfold is_in;
      by rewrite bool_decide_eq_false_2
     |unfold is_in; by rewrite bool_decide_eq_true_2].
  simpl. rewrite Hn. simpl. do 2 f_equal. by rewrite <-!app_assoc.
Qed.

Lemma add_task_asks_until_accepted_witness :
  ∃ n w',
    add_task ten_chars no_text [mk "1"]
      (World ["Buy milk"; ""; "tomorrow"; "2024-1-5"; "2024-01-05";
              "urgent"; "HIGH"; "x"] [] None)
    = Ok [mk "1"; Task (str n) "Buy milk" "" "2024-01-05" "Pending" (Some "High")] w'
    ∧ stdin w' = ["x"].
Proof.
  destruct (add_task_asks_until_accepted ten_chars no_text [mk "1"]
              (World ["Buy milk"; ""; "tomorrow"; "2024-1-5"; "2024-01-05";
                      "urgent"; "HIGH"; "x"] [] None)
              "Buy milk" "" ["tomorrow"; "2024-1-5"] "2024-01-05" ["urgent"] "HIGH"
              ["x"] eq_refl) as (n & Hleast & Hrun).
  - by repeat constructor.
  - reflexivity.
  - repeat constructor. by apply (bool_decide_unpack _); vm_compute.
  - by apply (bool_decide_unpack _); vm_compute.
  - exists n. eexists. split; [exact Hrun|reflexivity].
Defined.

(** X2: [add_task] returns only after a title, a description, a date
    [validate_date] accepts and a priority that is one of the three
    levels once capitalized have been typed; it then leaves the old
    tasks in place, with one task after them, and the file holds the new
    list.  It fails to return only when the standard input ends. *)
Theorem add_task_returns_after_valid_answers (validate_date : string → bool)
    (json_dump : json → string) (tasks : list task) (w : world) :
  (∀ tasks' w',
      add_task validate_date json_dump tasks w = Ok tasks' w' →
      ∃ new_title new_description bad_dates new_due_date bad_priorities line n,
        stdin w = new_title :: new_description
                    :: bad_dates ++ new_due_date :: bad_priorities ++ line :: stdin w'
        ∧ Forall (λ d, validate_date d = false) bad_dates
        ∧ validate_date new_due_date = true
        ∧ Forall (λ l, capitalize l ∉ PRIORITY_LEVELS) bad_priorities
        ∧ capitalize line ∈ PRIORITY_LEVELS
        ∧ least_unused (existing_ids_of tasks) n
        ∧ tasks' = tasks ++ [Task (str n) new_title new_description new_due_date
                                  "Pending" (Some (capitalize line))]
        ∧ tasks_json w' = saved json_dump tasks')
  ∧ (∀ e, add_task validate_date json_dump tasks w = Raise e → e = EOFError).
Proof.
  split.
  - intros tasks' w' Hrun.
    pose proof (add_task_Ok_answers _ _ _ _ _ _ Hrun)
      as (ttl & desc & bad_dates & due & bad_prios & line & Hin & Hbd & Hd & Hbp & Hp).
    destruct (add_task_run validate_date json_dump tasks w ttl desc bad_dates due
                bad_prios line (stdin w') Hin Hbd Hd Hbp Hp)
      as (n & out & Hleast & Hrun').
    cbv zeta in Hrun'. rewrite Hrun in Hrun'. injection Hrun' as -> ->.
    by exists ttl, desc, bad_dates, due, bad_prios, line, n.
  - intros e. apply (run_call_Raise validate_date json_dump Add).
Qed.

Lemma add_task_returns_after_valid_answers_witness :
  add_task any_date no_text [] (World ["Buy milk"; ""; "2024-01-05"] [] None)
  = Raise EOFError.
Proof.
  destruct (add_task any_date no_text []
              (World ["Buy milk"; ""; "2024-01-05"] [] None)) as [tasks' w'|e] eqn:Hrun.
  - exfalso.
    destruct (proj1 (add_task_returns_after_valid_answers any_date no_text []
                       (World ["Buy milk"; ""; "2024-01-05"] [] None)) _ _ Hrun)
      as (? & ? & bd & ? & bp & ? & ? & Hin & _).
    simpl in Hin. injection Hin as _ _ Hin.
    apply (f_equal length) in Hin. rewrite !length_app in Hin. simpl in Hin.
    rewrite !length_app in Hin. simpl in Hin. lia.
  - f_equal.
    by apply (proj2 (add_task_returns_after_valid_answers any_date no_text []
                       (World ["Buy milk"; ""; "2024-01-05"] [] None))).
Defined.

(** ** Updating a task *)

Lemma updated_fields desc due new_status new_priority t :
  let t' := updated desc due new_status new_priority t in
  task_id t' = task_id t
  ∧ title t' = title t
  ∧ description t' = (if decide (desc = "") then description t else desc)
  ∧ due_date t' = (if decide (due = "") then due_date t else due)
  ∧ status t' = (if decide (capitalize new_status ∈ STATUS_OPTIONS)
                 then capitalize new_status else status t)
  ∧ priority t' = (if decide (capitalize new_priority ∈ PRIORITY_LEVELS)
                   then Some (capitalize new_priority) else priority t).
Proof.
  unfold updated, is_in. cbv zeta.
  repeat case_decide; repeat case_bool_decide; try done.
Qed.

(** X3: for an id some task has, [update_task] asks for the due date
    again after each non-blank date [validate_date] rejects; with the
    answers read it replaces the first task with that id by a task with
    the same id and title, the new description unless blank, the new due
    date unless blank, the capitalized status if it is "Pending" or
    "Completed" and the old one otherwise, the capitalized priority if
    it is one of the three levels and the old one otherwise; it saves
    the list. *)
Theorem update_task_applies_answers (validate_date : string → bool)
    (json_dump : json → string) (tasks : list task) (w : world)
    (wanted desc : string) (bad_dues : list string)
    (due new_status new_priority : string) (rest : list string) :
  stdin w = wanted :: desc :: bad_dues ++ due :: new_status :: new_priority :: rest →
  wanted ∈ task_id <$> tasks →
  Forall (λ d, d ≠ "" ∧ validate_date d = false) bad_dues →
  due = "" ∨ validate_date due = true →
  ∃ i t t' out,
    find_task wanted tasks = Some (i, t)
    ∧ update_task validate_date json_dump tasks w
      = Ok (<[i := t']> tasks) (World rest out (saved json_dump (<[i := t']> tasks)))
    ∧ task_id t' = task_id t
    ∧ title t' = title t
    ∧ description t' = (if decide (desc = "") then description t else desc)
    ∧ due_date t' = (if decide (due = "") then due_date t else due)
    ∧ status t' = (if decide (capitalize new_status ∈ STATUS_OPTIONS)
                   then capitalize new_status else status t)
    ∧ priority t' = (if decide (capitalize new_priority ∈ PRIORITY_LEVELS)
                     then Some (capitalize new_priority) else priority t).
Proof.
  intros Hin (i & t & Hfind)%find_task_present Hbad Hdue.
  destruct (update_task_run validate_date json_dump tasks w wanted desc bad_dues
              due new_status new_priority rest i t Hin Hfind Hbad Hdue)
    as (out & Hrun).
  exists i, t, (updated desc due new_status new_priority t), out.
  split; [done|]. split; [exact Hrun|]. apply updated_fields.
Qed.

Lemma update_task_applies_answers_witness :
  ∃ t' out,
    update_task ten_chars no_text
      [mk "1"; Task "2" "Buy milk" "2%" "2024-01-05" "Pending" None]
      (World ["2"; "skimmed"; "soon"; ""; "COMPLETED"; "urgent"; "x"] [] None)
    = Ok [mk "1"; t'] (World ["x"] out (Some ""))
    ∧ description t' = "skimmed" ∧ due_date t' = "2024-01-05"
    ∧ status t' = "Completed" ∧ priority t' = None.
Proof.
  destruct (update_task_applies_answers ten_chars no_text
              [mk "1"; Task "2" "Buy milk" "2%" "2024-01-05" "Pending" None]
              (World ["2"; "skimmed"; "soon"; ""; "COMPLETED"; "urgent"; "x"] [] None)
              "2" "skimmed" ["soon"] "" "COMPLETED" "urgent" ["x"] eq_refl)
    as (i & t & t' & out & Hfind & Hrun & _ & _ & Hdesc & Hdue & Hstatus & Hprio).
  - by apply (bool_decide_unpack _); vm_compute.
  - by repeat constructor.
  - by left.
  - injection Hfind as <- <-. exists t', out. by split_and!.
Defined.

(** X4: an answer to the status question whose capitalized form is
    neither "Pending" nor "Completed", and an answer to the priority
    question whose capitalized form is none of the three levels, are
    ignored without a complaint: with the description and the due date
    left blank, [update_task] returns the list unchanged, saves it and
    reports success. *)
Theorem update_task_ignores_invalid_choices (validate_date : string → bool)
    (json_dump : json → string) (tasks : list task) (w : world)
    (wanted new_status new_priority : string) (rest : list string) :
  stdin w = wanted :: "" :: "" :: new_status :: new_priority :: rest →
  wanted ∈ task_id <$> tasks →
  capitalize new_status ∉ STATUS_OPTIONS →
  capitalize new_priority ∉ PRIORITY_LEVELS →
  ∃ i t,
    find_task wanted tasks = Some (i, t)
    ∧ update_task validate_date json_dump tasks w
      = Ok tasks
           (World rest
              (stdout w ++
                 [Print (LF +:+ "--- Update Task ---");
                  Prompt "Enter Task ID to update: ";
                  Print ("Current Description: " +:+ description t);
                  Prompt "New Description (leave blank to keep): ";
                  Print ("Current Due Date: " +:+ due_date t);
                  Prompt "New Due Date (%Y-%m-%d, leave blank to keep): ";
                  Print ("Current Status: " +:+ status t);
                  Prompt "New Status (Pending/Completed, leave blank to keep): ";
                  Print ("Current Priority: " +:+ get_priority t);
                  Prompt "New Priority (Low/Medium/High, leave blank to keep): ";
                  Print "Task updated successfully!"])
              (saved json_dump tasks)).
Proof.
  intros Hin (i & t & Hfind)%find_task_present Hstatus Hpriority.
  destruct w as [lines out0 file]. simpl in Hin. subst lines.
  pose proof Hfind as (Hi & _)%find_task_Some.
  exists i, t. split; [done|].
  unfold update_task, mbind, io_bind, fmap, io_fmap, print, emit, input_strip,
    while_input. simpl. rewrite Hfind. simpl. unfold is_in.
  rewrite !bool_decide_eq_false_2 by done. simpl.
  rewrite (list_insert_id _ _ _ Hi). by rewrite <-!app_assoc.
Qed.

Lemma update_task_ignores_invalid_choices_witness :
  ∃ w',
    update_task any_date no_text
      [mk "1"; Task "2" "Buy milk" "2%" "2024-01-05" "Pending" (Some "Low")]
      (World ["2"; ""; ""; "done"; "urgent"] [] None)
    = Ok [mk "1"; Task "2" "Buy milk" "2%" "2024-01-05" "Pending" (Some "Low")] w'.
Proof.
  destruct (update_task_ignores_invalid_choices any_date no_text
              [mk "1"; Task "2" "Buy milk" "2%" "2024-01-05" "Pending" (Some "Low")]
              (World ["2"; ""; ""; "done"; "urgent"] [] None)
              "2" "done" "urgent" [] eq_refl) as (i & t & _ & Hrun).
  - by apply (bool_decide_unpack _); vm_compute.
  - by apply (bool_decide_unpack _); vm_compute.
  - by apply (bool_decide_unpack _); vm_compute.
  - eauto.
Defined.

(** X5: whatever is typed, when [update_task] returns the list has the
    length it had, the same ids and the same titles in the same order,
    and every position but that of the first task with the id typed
    holds the task it held. *)
Theorem update_task_frame (validate_date : string → bool)
    (json_dump : json → string) (tasks : list task) (w : world)
    (tasks' : list task) (w' : world) :
  update_task validate_date json_dump tasks w = Ok tasks' w' →
  length tasks' = length tasks
  ∧ task_id <$> tasks' = task_id <$> tasks
  ∧ title <$> tasks' = title <$> tasks
  ∧ ∀ j, tasks' !! j ≠ tasks !! j →
         ∃ wanted lines t, stdin w = wanted :: lines
                           ∧ find_task wanted tasks = Some (j, t).
Proof.
  intros (wanted & lines & Hin & Hcase)%update_task_Ok.
  destruct (find_task wanted tasks) as [[i t]|] eqn:Hfind.
  - destruct Hcase as (t' & -> & Hid & Htitle & _).
    pose proof Hfind as (Hi & _)%find_task_Some.
    split_and!.
    + apply length_insert.
    + rewrite list_fmap_insert, Hid. apply list_insert_id.
      by rewrite list_lookup_fmap, Hi.
    + rewrite list_fmap_insert, Htitle. apply list_insert_id.
      by rewrite list_lookup_fmap, Hi.
    + intros j Hj. destruct (decide (j = i)) as [->|Hne]; [by eauto|].
      by rewrite list_lookup_insert_ne in Hj.
  - destruct Hcase as [-> _]. by split_and!.
Qed.

Lemma update_task_frame_witness :
  task_id <$> [mk "1"; Task "2" "Buy milk" "skimmed" "2024-02-01" "Completed"
                         (Some "High")]
  = task_id <$> [mk "1"; Task "2" "Buy milk" "2%" "2024-01-05" "Pending" (Some "Low")].
Proof.
  assert (∃ w',
    update_task any_date no_text
      [mk "1"; Task "2" "Buy milk" "2%" "2024-01-05" "Pending" (Some "Low")]
      (World ["2"; "skimmed"; "2024-02-01"; "completed"; "high"] [] None)
    = Ok [mk "1"; Task "2" "Buy milk" "skimmed" "2024-02-01" "Completed" (Some "High")]
         w') as [w' Hrun] by (eexists; vm_compute; reflexivity).
  exact (proj1 (proj2 (update_task_frame _ _ _ _ _ _ Hrun))).
Defined.

(** X6: for an id no task has, [update_task] and [mark_completed] read
    the id and nothing more, report that the id was not found, and leave
    the list and the file as they were. *)
Theorem unknown_id_changes_nothing (validate_date : string → bool)
    (json_dump : json → string) (tasks : list task) (w : world)
    (wanted : string) (rest : list string) :
  stdin w = wanted :: rest →
  (wanted ∉ task_id <$> tasks) →
  update_task validate_date json_dump tasks w
  = Ok tasks
       (World rest
          (stdout w ++ [Print (LF +:+ "--- Update Task ---");
                        Prompt "Enter Task ID to update: ";
                        Print "Task ID not found."])
          (tasks_json w))
  ∧ mark_completed json_dump tasks w
    = Ok tasks
         (World rest
            (stdout w ++ [Print (LF +:+ "--- Mark Task as Completed ---");
                          Prompt "Enter Task ID to mark as completed: ";
                          Print "Task ID not found."])
            (tasks_json w)).
Proof.
  intros Hin Hout%find_task_None. split.
  - destruct w as [lines out file]. simpl in Hin. subst lines.
    unfold update_task, mbind, io_bind, print, emit, input_strip. simpl.
    rewrite Hout. simpl. by rewrite <-!app_assoc.
  - by rewrite (mark_completed_run json_dump _ _ _ _ Hin), Hout.
Qed.

Lemma unknown_id_changes_nothing_witness :
  ∃ out,
    update_task any_date no_text [mk "1"; mk "2"]
      (World ["7"; "new text"; ""] [] (Some "kept"))
    = Ok [mk "1"; mk "2"] (World ["new text"; ""] out (Some "kept")).
Proof.
  eexists.
  apply (unknown_id_changes_nothing any_date no_text [mk "1"; mk "2"]
           (World ["7"; "new text"; ""] [] (Some "kept")) "7" ["new text"; ""] eq_refl).
  by apply (bool_decide_unpack _); vm_compute.
Defined.

(** ** The ids handed out *)

Lemma first_ids_S k : first_ids (S k) = first_ids k ++ [str (1 + Z.of_nat k)].
Proof. unfold first_ids. by rewrite seq_S, fmap_app. Qed.

Lemma elem_of_first_ids s k :
  s ∈ first_ids k ↔ ∃ m, s = str m ∧ 0 < m ≤ Z.of_nat k.
Proof.
  unfold first_ids. rewrite list_elem_of_fmap. split.
  - intros (j & -> & Hj%elem_of_seq). exists (1 + Z.of_nat j). split; [done|lia].
  - intros (m & -> & Hm). exists (Z.to_nat (m - 1)). split; [f_equal; lia|].
    apply elem_of_seq. lia.
Qed.

Lemma least_unused_first_ids (tasks : list task) k :
  task_id <$> tasks = first_ids k →
  least_unused (existing_ids_of tasks) (1 + Z.of_nat k).
Proof.
  intros Hids. unfold least_unused, existing_ids_of. rewrite Hids. split_and!.
  - lia.
  - rewrite elem_of_list_to_set, elem_of_first_ids.
    intros (m & Hm%str_inj & ?). lia.
  - intros m Hm. rewrite elem_of_list_to_set, elem_of_first_ids.
    exists m. split; [done|lia].
Qed.

(** X7: in a list whose ids are "1", ..., "k" in this order, the tasks
    that [n] calls of [add_task] add get the ids "k+1", ..., "k+n" in
    this order; starting with no task, the ids are "1", ..., "n". *)
Theorem add_task_counts_up (validate_date : string → bool)
    (json_dump : json → string) (n k : nat) (tasks : list task) (w : world)
    (tasks' : list task) (w' : world) :
  task_id <$> tasks = first_ids k →
  run_calls validate_date json_dump (replicate n Add) tasks w = Ok tasks' w' →
  task_id <$> tasks' = first_ids (k + n) ∧ take (length tasks) tasks' = tasks.
Proof.
  revert k tasks w. induction n as [|n IH]; intros k tasks w Hids; simpl.
  - intros [= <- _]. rewrite Nat.add_0_r. split; [done|].
    by rewrite firstn_all.
  - intros (tasks1 & w1 & Hadd & Hrest)%bind_Ok.
    apply add_task_Ok in Hadd as (m & ? & ? & ? & ? & -> & Hleast & _).
    pose proof (least_unused_unique _ _ _ Hleast (least_unused_first_ids _ _ Hids))
      as ->.
    apply (IH (S k)) in Hrest as [Hrest Htake].
    + split; [by rewrite Hrest, Nat.add_succ_r|].
      apply (f_equal (take (length tasks))) in Htake.
      rewrite take_take, length_app, Nat.min_l, take_app_length in Htake by lia.
      done.
    + by rewrite fmap_app, Hids, first_ids_S.
Qed.

Lemma add_task_counts_up_witness :
  task_id <$> [Task "1" "Buy milk" "" "2024-01-05" "Pending" (Some "Low");
               Task "2" "Pay bills" "" "2024-01-01" "Pending" (Some "High")]
  = first_ids 2.
Proof.
  assert (∃ w',
    run_calls any_date no_text (replicate 2 Add) []
      (World ["Buy milk"; ""; "2024-01-05"; "low";
              "Pay bills"; ""; "2024-01-01"; "High"] [] None)
    = Ok [Task "1" "Buy milk" "" "2024-01-05" "Pending" (Some "Low");
          Task "2" "Pay bills" "" "2024-01-01" "Pending" (Some "High")] w')
    as [w' Hrun] by (eexists; vm_compute; reflexivity).
  exact (proj1 (add_task_counts_up any_date no_text 2 0 [] _ _ _ eq_refl Hrun)).
Defined.

(** X8: an id freed by a deletion is handed out again.  In a list with
    distinct ids, once the task with the id of the number [k] is
    deleted, the next id is that of [k], unless a smaller number was
    free already, which then remains the next id. *)
Theorem deleted_id_is_reused (tasks : list task) (k : Z) (i : nat) (t : task) :
  unique_ids tasks →
  0 < k →
  find_task (str k) tasks = Some (i, t) →
  ∃ n, generate_task_id tasks = Some (str n)
       ∧ generate_task_id (delete i tasks) = Some (str (Z.min k n)).
Proof.
  intros Hnd Hk Hfind.
  destruct (generate_task_id_least tasks) as (n & Hn & Hpos & Hout & Hbelow).
  exists n. split; [done|].
  pose proof (find_task_elem _ _ _ _ Hfind) as Hused.
  apply find_task_split_ops in Hfind
    as (before & after & Htasks & _ & Hid & _ & Hdelete & _).
  rewrite Hdelete. subst tasks.
  pose proof (unique_ids_gone _ _ _ _ Hnd Hid) as Hgone.
  destruct (generate_task_id_least (before ++ after)) as (n' & -> & Hleast').
  do 2 f_equal. apply (least_unused_unique _ _ _ Hleast').
  unfold existing_ids_of in *. rewrite elem_of_list_to_set in Hout.
  assert (k ≠ n) as Hkn by (intros ->; done).
  assert (∀ m, m ≠ k → str m ∈ task_id <$> (before ++ t :: after) →
               str m ∈ task_id <$> (before ++ after)) as Hkeep.
  { intros m Hm. rewrite !fmap_app, fmap_cons, !elem_of_app, elem_of_cons, Hid.
    intros [?|[?%str_inj|?]]; [by left|done|by right]. }
  split_and!.
  - lia.
  - rewrite elem_of_list_to_set.
    destruct (Z.min_spec k n) as [[? ->]|[? ->]]; [done|].
    intros Hin. apply Hout. revert Hin.
    rewrite !fmap_app, fmap_cons, !elem_of_app, elem_of_cons. tauto.
  - intros m Hm. rewrite elem_of_list_to_set. apply Hkeep; [lia|].
    assert (0 < m < n) as Hmn by lia. specialize (Hbelow m Hmn).
    by rewrite elem_of_list_to_set in Hbelow.
Qed.

Lemma deleted_id_is_reused_witness :
  ∃ n, generate_task_id [mk "1"; mk "2"; mk "3"] = Some (str n)
       ∧ generate_task_id [mk "1"; mk "3"] = Some (str (Z.min 2 n)).
Proof.
  apply (deleted_id_is_reused [mk "1"; mk "2"; mk "3"] 2 1 (mk "2")).
  - by apply (bool_decide_unpack _); vm_compute.
  - lia.
  - reflexivity.
Defined.

(** ** Searching *)

Lemma prefix_spec (sub s : string) :
  String.prefix sub s = true ↔ ∃ post, s = sub +:+ post.
Proof.
  revert s. induction sub as [|a sub IH]; intros s.
  - split; [|by destruct s]. intros _. by exists s.
  - destruct s as [|b s]; simpl.
    + split; [done|]. by intros [post [=]].
    + destruct (ascii_dec a b) as [->|Hne].
      * rewrite IH. split.
        -- intros [post ->]. by exists post.
        -- intros [post [= ->]]. by exists post.
      * split; [done|]. intros [post [= ? _]]. done.
Qed.

Lemma contains_spec (sub s : string) : contains sub s = true ↔ occurs_in sub s.
Proof.
  unfold occurs_in. induction s as [|c s IH].
  - change (contains sub "") with (String.prefix sub "" || false).
    rewrite orb_false_r, prefix_spec. split.
    + intros [post Hpost]. by exists "", post.
    + intros ([|c pre] & post & Heq); [by exists post|done].
  - change (contains sub (String c s))
      with (String.prefix sub (String c s) || contains sub s).
    rewrite orb_true_iff, IH, prefix_spec. split.
    + intros [[post Hpost]|(pre & post & ->)].
      * by exists "", post.
      * by exists (String c pre), post.
    + intros ([|c' pre] & post & Heq).
      * left. by exists post.
      * right. injection Heq as -> ->. by exists pre, post.
Qed.

(** X9: [search_tasks] reads a keyword and shows, in the order of the
    list, exactly the tasks in whose title or description, both put in
    lower case by [str.lower], the keyword put in lower case occurs; a
    blank keyword, which [str.lower] leaves blank, shows every task. *)
Theorem search_tasks_shows_matches (lower : string → string)
    (tasks : list task) (w : world) (keyword : string) (rest : list string) :
  stdin w = keyword :: rest →
  search_tasks lower tasks w
  = print_table (search lower (lower keyword) tasks)
      (World rest
         (stdout w ++ [Print (LF +:+ "--- Search Tasks ---");
                       Prompt "Enter keyword to search (title/description): "])
         (tasks_json w))
  ∧ search lower (lower keyword) tasks `sublist_of` tasks
  ∧ (∀ t, t ∈ search lower (lower keyword) tasks ↔
          t ∈ tasks ∧ (occurs_in (lower keyword) (lower (title t))
                       ∨ occurs_in (lower keyword) (lower (description t))))
  ∧ (lower keyword = "" → search lower (lower keyword) tasks = tasks).
Proof.
  intros Hin. split_and!.
  - destruct w as [lines out file]. simpl in Hin. subst lines.
    unfold search_tasks, mbind, io_bind, fmap, io_fmap, print, emit, input_strip.
    simpl. by rewrite <-!app_assoc.
  - apply sublist_filter.
  - intros t. unfold search. rewrite list_elem_of_filter, orb_true_iff.
    rewrite !contains_spec. tauto.
  - intros ->. unfold search.
    induction tasks as [|t tasks IH]; [done|].
    rewrite filter_cons. rewrite IH.
    destruct (decide _) as [|Hno]; [done|]. destruct Hno.
    by destruct (lower (title t)).
Qed.

Lemma search_tasks_shows_matches_witness :
  search lower_ascii (lower_ascii "")
    [Task "1" "Buy Milk" "" "2024-01-05" "Pending" None;
     Task "2" "Pay bills" "" "2024-01-01" "Pending" None]
  = [Task "1" "Buy Milk" "" "2024-01-05" "Pending" None;
     Task "2" "Pay bills" "" "2024-01-01" "Pending" None].
Proof.
  apply (search_tasks_shows_matches lower_ascii _ (World [""] [] None) "" []
           eq_refl).
  reflexivity.
Defined.

(** On ASCII text [str.lower] maps the letters A to Z, as [lower_ascii]
    does. *)
Example search_example :
  search lower_ascii (lower_ascii "MILK")
    [Task "1" "Buy Milk" "" "2024-01-05" "Pending" None;
     Task "2" "Pay bills" "" "2024-01-01" "Pending" None;
     Task "3" "Shop" "milk and eggs" "2024-01-01" "Pending" None]
  = [Task "1" "Buy Milk" "" "2024-01-05" "Pending" None;
     Task "3" "Shop" "milk and eggs" "2024-01-01" "Pending" None].
Proof. reflexivity. Qed.

(** ** Filtering *)

Lemma filter_status_partition tasks :
  valid_statuses tasks →
  filter_status "Pending" tasks ++ filter_status "Completed" tasks ≡ₚ tasks.
Proof.
  unfold filter_status. induction 1 as [|t tasks Hvalid _ IH]; [done|].
  rewrite !filter_cons. unfold STATUS_OPTIONS in Hvalid.
  apply elem_of_cons in Hvalid as [Hs|Hs%list_elem_of_singleton]; rewrite Hs; simpl.
  - by rewrite IH.
  - by rewrite <-Permutation_middle, IH.
Qed.

(** X10: with the choice '1' [filter_tasks] shows the tasks whose status
    is "Pending", with '2' those whose status is "Completed", in the
    order of the list; no task is in both tables, and, every status
    being one of the two, the two tables together hold each task of the
    list exactly as often as the list does. *)
Theorem filter_tasks_by_status (tasks : list task) (w : world)
    (choice s : string) (rest : list string) :
  stdin w = choice :: rest →
  (choice = "1" ∧ s = "Pending") ∨ (choice = "2" ∧ s = "Completed") →
  filter_tasks tasks w
  = print_table (filter_status s tasks)
      (World rest
         (stdout w ++ [Print (LF +:+ "--- Filter Tasks ---"); Print "1. Pending";
                       Print "2. Completed"; Print "3. By Priority";
                       Prompt "Select filter option: "])
         (tasks_json w))
  ∧ filter_status s tasks `sublist_of` tasks
  ∧ (∀ t, ¬ (t ∈ filter_status "Pending" tasks ∧ t ∈ filter_status "Completed" tasks))
  ∧ (valid_statuses tasks →
     filter_status "Pending" tasks ++ filter_status "Completed" tasks ≡ₚ tasks).
Proof.
  intros Hin Hchoice. split_and!.
  - destruct w as [lines out file]. simpl in Hin. subst lines.
    unfold filter_tasks, mbind, io_bind, print, emit, input_strip. simpl.
    destruct Hchoice as [[-> ->]|[-> ->]]; simpl; by rewrite <-!app_assoc.
  - apply sublist_filter.
  - intros t [[H1 _]%list_elem_of_filter [H2 _]%list_elem_of_filter]. congruence.
  - apply filter_status_partition.
Qed.

Lemma filter_tasks_by_status_witness :
  filter_status "Pending"
    [mk "1"; Task "2" "Buy milk" "" "2024-01-05" "Completed" None; mk "3"]
  ++ filter_status "Completed"
       [mk "1"; Task "2" "Buy milk" "" "2024-01-05" "Completed" None; mk "3"]
  ≡ₚ [mk "1"; Task "2" "Buy milk" "" "2024-01-05" "Completed" None; mk "3"].
Proof.
  apply (filter_tasks_by_status _ (World ["2"] [] None) "2" "Completed" [] eq_refl).
  - right. by split.
  - by apply (bool_decide_unpack _); vm_compute.
Defined.

(** X11: [filter_tasks] shows no table for a choice other than '1', '2'
    and '3', nor, with the choice '3', for a priority whose capitalized
    form is none of the three levels: it reports the invalid option, or
    the invalid priority, and returns, having read the one answer, or
    the two. *)
Theorem filter_tasks_rejects (tasks : list task) (w : world) :
  (∀ choice rest,
      stdin w = choice :: rest → choice ∉ ["1"; "2"; "3"] →
      filter_tasks tasks w
      = Ok () (World rest
                 (stdout w ++ [Print (LF +:+ "--- Filter Tasks ---");
                               Print "1. Pending"; Print "2. Completed";
                               Print "3. By Priority";
                               Prompt "Select filter option: ";
                               Print "Invalid option."])
                 (tasks_json w)))
  ∧ (∀ line rest,
      stdin w = "3" :: line :: rest → capitalize line ∉ PRIORITY_LEVELS →
      filter_tasks tasks w
      = Ok () (World rest
                 (stdout w ++ [Print (LF +:+ "--- Filter Tasks ---");
                               Print "1. Pending"; Print "2. Completed";
                               Print "3. By Priority";
                               Prompt "Select filter option: ";
                               Prompt "Enter priority (Low/Medium/High): ";
                               Print "Invalid priority."])
                 (tasks_json w))).
Proof.
  destruct w as [lines out file]. simpl. split.
  - intros choice rest -> Hchoice.
    unfold filter_tasks, mbind, io_bind, print, emit, input_strip. simpl.
    rewrite !decide_False by (intros ->; apply Hchoice; set_unfold; tauto).
    simpl. by rewrite <-!app_assoc.
  - intros line rest -> Hline.
    unfold filter_tasks, mbind, io_bind, fmap, io_fmap, print, emit, input_strip.
    simpl. unfold is_in. rewrite bool_decide_eq_false_2 by done.
    simpl. by rewrite <-!app_assoc.
Qed.

Lemma filter_tasks_rejects_witness :
  filter_tasks [mk "1"] (World ["3"; "urgent"; "x"] [] None)
  = Ok () (World ["x"]
             [Print (LF +:+ "--- Filter Tasks ---"); Print "1. Pending";
              Print "2. Completed"; Print "3. By Priority";
              Prompt "Select filter option: ";
              Prompt "Enter priority (Low/Medium/High): ";
              Print "Invalid priority."]
             None).
Proof.
  apply (proj2 (filter_tasks_rejects [mk "1"] (World ["3"; "urgent"; "x"] [] None))
           "urgent" ["x"] eq_refl).
  by apply (bool_decide_unpack _); vm_compute.
Defined.

(** ** Operations that only show *)

(** X12: [view_tasks], [search_tasks], [filter_tasks], [task_summary],
    [sort_tasks] and [export_to_csv] leave [tasks.json] as it is, read
    their answers from the front of the standard input, add to the
    console after what it shows, and fail to return only when the
    standard input ends. *)
Theorem showing_changes_nothing (lower : string → string) (tasks : list task) :
  (keeps console_step (view_tasks tasks) ∧ raises_only_eof (view_tasks tasks))
  ∧ (keeps console_step (search_tasks lower tasks)
     ∧ raises_only_eof (search_tasks lower tasks))
  ∧ (keeps console_step (filter_tasks tasks) ∧ raises_only_eof (filter_tasks tasks))
  ∧ (keeps console_step (task_summary tasks) ∧ raises_only_eof (task_summary tasks))
  ∧ (keeps console_step (sort_tasks tasks) ∧ raises_only_eof (sort_tasks tasks))
  ∧ (keeps console_step (export_to_csv tasks)
     ∧ raises_only_eof (export_to_csv tasks)).
Proof.
  split_and!.
  - apply (keeps_view_tasks console_step console_step_emit).
  - apply roe_view_tasks.
  - apply (keeps_search_tasks console_step console_step_emit console_step_input).
  - apply roe_search_tasks.
  - apply (keeps_filter_tasks console_step console_step_emit console_step_input).
  - apply roe_filter_tasks.
  - apply (keeps_task_summary console_step console_step_emit).
  - apply roe_task_summary.
  - apply (keeps_sort_tasks console_step console_step_emit).
  - apply roe_sort_tasks.
  - apply (keeps_export_to_csv console_step console_step_emit).
  - apply roe_export_to_csv.
Qed.

Lemma showing_changes_nothing_witness :
  console_step (World ["milk"; "x"] [] (Some "kept"))
    (World ["x"]
       [Print (LF +:+ "--- Search Tasks ---");
        Prompt "Enter keyword to search (title/description): ";
        Print "No tasks to display."]
       (Some "kept")).
Proof.
  apply (proj1 (proj1 (proj2 (showing_changes_nothing lower_ascii [mk "1"])))
           (World ["milk"; "x"] [] (Some "kept")) ()).
  reflexivity.
Defined.

(** ** A whole session *)

Section session.
Variable validate_date : string → bool.
Variable json_dump : json → string.
Variable lower : string → string.
Implicit Types (tasks : list task) (w : world).

Lemma keeps_reads_on_menu_round tasks :
  keeps reads_on (menu_round validate_date json_dump lower tasks).
Proof.
  unfold menu_round.
  apply (keeps_bind reads_on); [apply (keeps_print_lines reads_on reads_on_emit)|].
  intros _.
  apply (keeps_bind reads_on);
    [apply (keeps_input_strip reads_on reads_on_input)|intros choice].
  repeat case_decide;
    try (apply (keeps_fmap reads_on);
         first [apply (keeps_run_call reads_on reads_on_emit reads_on_input
                         reads_on_save validate_date json_dump Add)
               |apply (keeps_run_call reads_on reads_on_emit reads_on_input
                         reads_on_save validate_date json_dump Update)
               |apply (keeps_run_call reads_on reads_on_emit reads_on_input
                         reads_on_save validate_date json_dump MarkCompleted)
               |apply (keeps_run_call reads_on reads_on_emit reads_on_input
                         reads_on_save validate_date json_dump Delete)]);
    (apply (keeps_bind reads_on); [|intros; apply (keeps_ret reads_on)]);
    first [apply (keeps_view_tasks reads_on reads_on_emit)
          |apply (keeps_search_tasks reads_on reads_on_emit reads_on_input)
          |apply (keeps_filter_tasks reads_on reads_on_emit reads_on_input)
          |apply (keeps_task_summary reads_on reads_on_emit)
          |apply (keeps_sort_tasks reads_on reads_on_emit)
          |apply (keeps_export_to_csv reads_on reads_on_emit)
          |apply (keeps_print reads_on reads_on_emit)].
Qed.

(** The loop is left by the choice '11' alone. *)
Lemma menu_round_Break tasks w tasks' w' :
  menu_round validate_date json_dump lower tasks w = Ok (Break tasks') w' →
  tasks' = tasks ∧ "11" ∈ stdin w ∧ last (stdout w') = Some (Print "Goodbye!")
  ∧ tasks_json w' = tasks_json w.
Proof.
  unfold menu_round. intros (_u & w0 & Hmenu & H)%bind_Ok.
  apply (keeps_print_lines console_step console_step_emit) in Hmenu
    as (Hfile0 & [used0 Hused0] & _).
  apply bind_Ok in H as (choice & w1 & Hchoice & H).
  apply input_strip_Ok in Hchoice as [Hchoice Hfile1].
  repeat case_decide;
    try (by apply fmap_Ok in H as (? & _ & [=]));
    try (by apply bind_Ok in H as (? & ? & _ & [=])).
  apply bind_Ok in H as (? & w2 & Hbye & [= <- <-]).
  apply emit_Ok in Hbye as (_ & Hout & Hfile2). subst choice.
  split_and!; [done| | |congruence].
  - rewrite Hused0, Hchoice. apply elem_of_app. right. by left.
  - rewrite Hout. apply last_snoc.
Qed.

Lemma main_loop_Ok_leaves fuel tasks w tasks' w' :
  main_loop validate_date json_dump lower fuel tasks w = Ok tasks' w' →
  "11" ∈ stdin w ∧ last (stdout w') = Some (Print "Goodbye!").
Proof.
  revert tasks w. induction fuel as [|fuel IH]; intros tasks w; [done|].
  simpl. intros (c & w1 & Hround & H)%bind_Ok. destruct c as [tasks1|tasks1].
  - apply keeps_reads_on_menu_round in Hround as [used Hused].
    apply IH in H as [H11 Hlast]. split; [|done].
    rewrite Hused. apply elem_of_app. by right.
  - injection H as <- <-. by apply menu_round_Break in Hround as (_ & ? & ? & _).
Qed.

Lemma run_call_in_sync c tasks w tasks' w' :
  in_sync json_dump tasks w →
  run_call validate_date json_dump c tasks w = Ok tasks' w' →
  in_sync json_dump tasks' w'.
Proof.
  unfold in_sync. intros Hsync. destruct c; simpl.
  - by intros (? & ? & ? & ? & ? & _ & _ & _ & _ & ?)%add_task_Ok.
  - intros (wanted & lines & _ & Hcase)%update_task_Ok.
    destruct (find_task wanted tasks) as [[i t]|].
    + by destruct Hcase as (t' & _ & _ & _ & _ & ?).
    + destruct Hcase as [-> ->]. done.
  - destruct (stdin w) as [|wanted rest] eqn:Hin.
    { unfold mark_completed, mbind, io_bind, print, emit, input_strip. simpl.
      by rewrite Hin. }
    rewrite (mark_completed_run _ _ _ _ _ Hin).
    destruct (find_task wanted tasks) as [[i t]|]; by intros [= <- <-].
  - destruct (stdin w) as [|wanted rest] eqn:Hin.
    { unfold delete_task, mbind, io_bind, print, emit, input_strip. simpl.
      by rewrite Hin. }
    rewrite (delete_task_run _ _ _ _ _ Hin).
    destruct (find_task wanted tasks) as [[i t]|]; by intros [= <- <-].
Qed.

Lemma update_task_Ok_well_formed tasks w tasks' w' :
  Forall (well_formed validate_date) tasks →
  update_task validate_date json_dump tasks w = Ok tasks' w' →
  Forall (well_formed validate_date) tasks'.
Proof.
  intros Hwf Hrun. unfold update_task in Hrun. inv_io Hrun.
  destruct (find_task _ tasks) as [[i t]|] eqn:Hfind.
  - inv_io Hrun. injection Hrun as <- _.
    apply find_task_Some in Hfind as (Hi & _).
    pose proof (Forall_lookup_1 _ _ _ _ Hwf Hi) as Ht.
    repeat match goal with H : (capitalize <$> _) _ = Ok _ _ |- _ =>
      apply fmap_Ok in H as (? & _ & ->) end.
    match goal with H : while_input _ _ _ = Ok ?t1 _ |- _ =>
      apply input_loop_Ok in H as (? & due & _ & _ & H & _);
      assert (well_formed validate_date t1) as (Hs1 & Hp1 & Hd1)
    end.
    { destruct Ht as (? & ? & ?).
      repeat case_decide; destruct (validate_date due) eqn:Hdue; simplify_eq;
        by split_and!. }
    apply Forall_insert; [done|]. unfold is_in.
    repeat case_bool_decide; split_and!; simpl; try done;
      by intros p [= <-].
  - inv_io Hrun. by injection Hrun as <- _.
Qed.

Lemma run_call_well_formed c tasks w tasks' w' :
  Forall (well_formed validate_date) tasks →
  run_call validate_date json_dump c tasks w = Ok tasks' w' →
  Forall (well_formed validate_date) tasks'.
Proof.
  intros Hwf. destruct c; simpl.
  - intros (? & ? & ? & ? & ? & -> & _ & Hdate & Hprio & _)%add_task_Ok.
    apply Forall_app. split; [done|]. apply Forall_singleton.
    split_and!; simpl; [by apply (bool_decide_unpack _)|by intros p [= <-]|done].
  - by apply update_task_Ok_well_formed.
  - destruct (stdin w) as [|wanted rest] eqn:Hin.
    { unfold mark_completed, mbind, io_bind, print, emit, input_strip. simpl.
      by rewrite Hin. }
    rewrite (mark_completed_run _ _ _ _ _ Hin).
    destruct (find_task wanted tasks) as [[i t]|] eqn:Hfind; [|by intros [= <- _]].
    intros [= <- _]. apply find_task_Some in Hfind as (Hi & _).
    destruct (Forall_lookup_1 _ _ _ _ Hwf Hi) as (? & ? & ?).
    apply Forall_insert; [done|].
    split_and!; simpl; [by apply (bool_decide_unpack _)|done|done].
  - destruct (stdin w) as [|wanted rest] eqn:Hin.
    { unfold delete_task, mbind, io_bind, print, emit, input_strip. simpl.
      by rewrite Hin. }
    rewrite (delete_task_run _ _ _ _ _ Hin).
    destruct (find_task wanted tasks) as [[i t]|]; [|by intros [= <- _]].
    intros [= <- _]. by apply Forall_delete.
Qed.
End session.

(** X13: the menu loop ends on every finite standard input.  With a
    bound above the number of answers to come it never stops at the
    bound, and any larger bound gives the same run: the loop is left
    with the choice '11', after the farewell, or the program stops with
    [EOFError] when the answers run out. *)
Theorem main_loop_ends (validate_date : string → bool) (json_dump : json → string)
    (lower : string → string) (fuel : nat) (tasks : list task) (w : world) :
  (length (stdin w) < fuel)%nat →
  (∀ e, main_loop validate_date json_dump lower fuel tasks w = Raise e → e = EOFError)
  ∧ (∀ fuel', (length (stdin w) < fuel')%nat →
       main_loop validate_date json_dump lower fuel' tasks w
       = main_loop validate_date json_dump lower fuel tasks w)
  ∧ (∀ tasks' w',
       main_loop validate_date json_dump lower fuel tasks w = Ok tasks' w' →
       "11" ∈ stdin w ∧ last (stdout w') = Some (Print "Goodbye!")).
Proof.
  intros Hfuel. split_and!.
  - intros e. by apply main_loop_Raise.
  - intros fuel' Hfuel'. by apply main_loop_fuel.
  - intros tasks' w'. apply main_loop_Ok_leaves.
Qed.

Lemma main_loop_ends_witness :
  main_loop any_date no_text lower_ascii 4 [mk "1"] (World ["8"; "0"; "5"] [] None)
  = Raise EOFError.
Proof.
  destruct (main_loop any_date no_text lower_ascii 4 [mk "1"] (World ["8"; "0"; "5"] [] None))
    as [tasks' w'|e] eqn:Hrun.
  - exfalso.
    destruct (main_loop_ends any_date no_text lower_ascii 4 [mk "1"]
                (World ["8"; "0"; "5"] [] None) ltac:(simpl; lia))
      as (_ & _ & Hleaves).
    destruct (Hleaves _ _ Hrun) as [H11 _].
    simpl in H11. by apply (bool_decide_pack _) in H11.
  - f_equal.
    by destruct (main_loop_ends any_date no_text lower_ascii 4 [mk "1"]
                   (World ["8"; "0"; "5"] [] None) ltac:(simpl; lia))
      as (Hraise & _); apply Hraise.
Defined.

Example main_loop_session :
  ∃ w',
    main_loop any_date no_text lower_ascii 20 []
      (World ["1"; "Buy milk"; ""; "2024-01-05"; "low";
              "4"; "1";
              "12";
              "11"; "never read"] [] None)
    = Ok [Task "1" "Buy milk" "" "2024-01-05" "Completed" (Some "Low")] w'
    ∧ stdin w' = ["never read"].
Proof. eexists. split; [by vm_compute|done]. Qed.

(** X14: a session keeps the list in order.  When the menu loop is
    left, the ids of the list are distinct if they were when it was
    entered; every task has a status of [STATUS_OPTIONS], a priority of
    [PRIORITY_LEVELS] or none and a due date [validate_date] accepts if
    every task had; and [tasks.json] holds the dump of the list if it
    did. *)
Theorem session_keeps_store (validate_date : string → bool)
    (json_dump : json → string) (lower : string → string) (fuel : nat)
    (tasks : list task) (w : world) (tasks' : list task) (w' : world) :
  main_loop validate_date json_dump lower fuel tasks w = Ok tasks' w' →
  (unique_ids tasks → unique_ids tasks')
  ∧ (Forall (well_formed validate_date) tasks →
     Forall (well_formed validate_date) tasks')
  ∧ (in_sync json_dump tasks w → in_sync json_dump tasks' w').
Proof.
  intros Hrun. split_and!.
  - intros H. revert Hrun.
    apply (main_loop_invariant validate_date json_dump lower (λ t _, unique_ids t));
      [|done|done].
    intros c t0 w0 t1 w1. apply run_call_unique_ids.
  - intros H. revert Hrun.
    apply (main_loop_invariant validate_date json_dump lower
             (λ t _, Forall (well_formed validate_date) t)); [|done|done].
    intros c t0 w0 t1 w1. apply run_call_well_formed.
  - intros H. revert Hrun.
    apply (main_loop_invariant validate_date json_dump lower (in_sync json_dump));
      [| |done].
    + intros c t0 w0 t1 w1. apply run_call_in_sync.
    + unfold in_sync. intros t0 w0 w1 Hsync (Hfile & _). congruence.
Qed.

Lemma session_keeps_store_witness :
  unique_ids [Task "2" "Pay bills" "" "2024-01-07" "Completed" (Some "High");
              Task "1" "Call home" "soon" "2024-01-06" "Pending" (Some "Medium")].
Proof.
  assert (∃ w',
    main_loop ten_chars no_text lower_ascii 30 []
      (World ["1"; "Buy milk"; ""; "2024-01-05"; "low";
              "1"; "Pay bills"; ""; "2024-01-07"; "High";
              "5"; "1";
              "9";
              "1"; "Call home"; "soon"; "next week"; "2024-01-06"; "MEDIUM";
              "4"; "2";
              "11"] [] None)
    = Ok [Task "2" "Pay bills" "" "2024-01-07" "Completed" (Some "High");
          Task "1" "Call home" "soon" "2024-01-06" "Pending" (Some "Medium")] w')
    as [w' Hrun] by (eexists; vm_compute; reflexivity).
  apply (proj1 (session_keeps_store _ _ _ _ _ _ _ _ Hrun)).
  by apply (bool_decide_unpack _); vm_compute.
Defined.

(** ** Summaries across operations *)

Lemma count_status_app s tasks1 tasks2 :
  count_status s (tasks1 ++ tasks2) = count_status s tasks1 + count_status s tasks2.
Proof.
  rewrite !count_status_length. unfold filter_status.
  rewrite filter_app, length_app. lia.
Qed.

(** X15: adding a task raises the total and the number of pending tasks
    by one and leaves the number of completed tasks; marking a pending
    task as completed moves one from the pending to the completed and
    leaves the total. *)
Theorem summary_follows_operations (validate_date : string → bool)
    (json_dump : json → string) (tasks : list task) (w : world)
    (tasks' : list task) (w' : world) :
  (add_task validate_date json_dump tasks w = Ok tasks' w' →
   summarize tasks'
   = Summary (total (summarize tasks) + 1) (pending (summarize tasks) + 1)
       (completed (summarize tasks)))
  ∧ (∀ wanted rest i t,
       stdin w = wanted :: rest →
       find_task wanted tasks = Some (i, t) →
       status t = "Pending" →
       mark_completed json_dump tasks w = Ok tasks' w' →
       summarize tasks'
       = Summary (total (summarize tasks)) (pending (summarize tasks) - 1)
           (completed (summarize tasks) + 1)).
Proof.
  split.
  - intros (n & ? & ? & ? & ? & -> & _)%add_task_Ok.
    unfold summarize. rewrite !count_status_app, length_app, !count_status_cons.
    change (count_status "Pending" []) with 0.
    change (count_status "Completed" []) with 0.
    simpl. f_equal; lia.
  - intros wanted rest i t Hin Hfind Hstatus.
    rewrite (mark_completed_run json_dump _ _ _ _ Hin), Hfind. intros [= <- _].
    apply find_task_split_ops in Hfind
      as (before & after & -> & _ & _ & _ & _ & Hinsert).
    rewrite Hinsert. unfold summarize.
    rewrite !count_status_app, !length_app, !count_status_cons, Hstatus.
    simpl. f_equal; lia.
Qed.

Lemma summary_follows_operations_witness :
  summarize [mk "1"; Task "2" "Buy milk" "" "2024-01-05" "Pending" (Some "Low")]
  = Summary (total (summarize [mk "1"]) + 1) (pending (summarize [mk "1"]) + 1)
      (completed (summarize [mk "1"])).
Proof.
  assert (∃ w',
    add_task any_date no_text [mk "1"]
      (World ["Buy milk"; ""; "2024-01-05"; "low"] [] None)
    = Ok [mk "1"; Task "2" "Buy milk" "" "2024-01-05" "Pending" (Some "Low")] w')
    as [w' Hrun] by (eexists; vm_compute; reflexivity).
  exact (proj1 (summary_follows_operations _ _ _ _ _ _) Hrun).
Defined.
